(** * httpcore: the connection facade and the HTTP/1.1 driver

    A shallow embedding of [httpcore/http11.py] and [httpcore/connection.py].

    The asynchronous methods are written in a state-and-exception monad.
    A run returns an outcome together with the state reached, so that what
    an exception leaves behind stays visible.  Calls that leave the driver
    (the h11 state machine, the reader, the writer, the release callback)
    are appended to a log, which gives the order in which they happen.

    The h11 library is not part of the repository: the driver is written
    against an interface ([h11.Connection]) and the facts about h11 that a
    property needs are collected in [h11.Lawful].  A small reference
    machine, [Sim], implements both and is used to run the driver. *)

From Stdlib Require Import List String ZArith Bool Arith Lia.
Import ListNotations.
Open Scope list_scope.

(** Python [bytes]. *)
Definition bytes := list Byte.byte.

(** [str.encode()] and [bytes.decode("latin1")]: a Rocq string is already a
    sequence of 8-bit characters. *)
Definition encode (s : string) : bytes := list_byte_of_string s.
Definition decode_latin1 (b : bytes) : string := string_of_list_byte b.

(* ------------------------------------------------------------------ *)
(** ** The h11 vocabulary used by the driver *)

Module h11.

(** The states of one role of an [h11.Connection]. *)
Inductive State :=
| IDLE | SEND_RESPONSE | SEND_BODY | DONE | MUST_CLOSE | CLOSED | ERROR
| MIGHT_SWITCH_PROTOCOL | SWITCHED_PROTOCOL.

Definition State_eqb (a b : State) : bool :=
  match a, b with
  | IDLE, IDLE | SEND_RESPONSE, SEND_RESPONSE | SEND_BODY, SEND_BODY
  | DONE, DONE | MUST_CLOSE, MUST_CLOSE | CLOSED, CLOSED | ERROR, ERROR
  | MIGHT_SWITCH_PROTOCOL, MIGHT_SWITCH_PROTOCOL
  | SWITCHED_PROTOCOL, SWITCHED_PROTOCOL => true
  | _, _ => false
  end.

Definition Headers := list (bytes * bytes).

(** [H11Event] of http11.py. *)
Inductive Event :=
| Request (method : bytes) (target : string) (headers : Headers)
| Response (status_code : Z) (headers : Headers) (reason : bytes)
| InformationalResponse (status_code : Z) (headers : Headers) (reason : bytes)
| Data (data : bytes)
| EndOfMessage
| ConnectionClosed.

(** What [next_event()] returns: an event or one of two sentinels. *)
Inductive NextEvent :=
| Ev (e : Event)
| NEED_DATA
| PAUSED.

(** [h11.ProtocolError] and its two subclasses. *)
Inductive ProtocolError := LocalProtocolError | RemoteProtocolError.

(** The part of [h11.Connection] the driver calls.  [send] returns the
    bytes to put on the wire (for [ConnectionClosed] h11 returns [None],
    which the driver never looks at: the empty string stands for it). *)
Class Connection (S : Type) := {
  new : S;   (* h11.Connection(our_role=h11.CLIENT) *)
  send : S -> Event -> (ProtocolError + bytes) * S;
  next_event : S -> (ProtocolError + NextEvent) * S;
  receive_data : S -> bytes -> S;
  start_next_cycle : S -> (ProtocolError + unit) * S;
  our_state : S -> State;
  their_state : S -> State
}.

(** Facts about the h11 client state machine (h11/_state.py):
    - a [Request] is legal for the client only in [IDLE];
    - [start_next_cycle] succeeds from [DONE]/[DONE] and puts both roles
      back to [IDLE];
    - after a [ConnectionClosed] was sent (accepted or not) the client is in
      [CLOSED] or [ERROR], and sending it again changes nothing. *)
Class Lawful (S : Type) `{Connection S} : Prop := {
  request_needs_idle : forall s m t h,
    our_state s <> IDLE ->
    fst (send s (Request m t h)) = inl LocalProtocolError;
  cycle_from_done : forall s,
    our_state s = DONE -> their_state s = DONE ->
    exists s', start_next_cycle s = (inr tt, s')
               /\ our_state s' = IDLE /\ their_state s' = IDLE;
  closed_is_terminal : forall s,
    let s1 := snd (send s ConnectionClosed) in
    (our_state s1 = CLOSED \/ our_state s1 = ERROR);
  closed_twice : forall s,
    let s1 := snd (send s ConnectionClosed) in
    snd (send s1 ConnectionClosed) = s1
}.

End h11.

(* ------------------------------------------------------------------ *)
(** ** Exceptions, outcomes and the monad *)

Inductive Exn :=
| H11ProtocolError (e : h11.ProtocolError)
| AssertionError
| ReadTimeout
| WriteTimeout
| ConnectTimeout.

(** The outcome of a call: a value, an exception, or no outcome at all
    ([Diverges]: the iteration budget of a body drain ran out). *)
Inductive Result (A : Type) :=
| Ok (a : A)
| Raise (e : Exn)
| Diverges.
Arguments Ok {A} a.
Arguments Raise {A} e.
Arguments Diverges {A}.

Definition is_Ok {A} (r : Result A) : bool :=
  match r with Ok _ => true | _ => false end.

Definition M (St A : Type) : Type := St -> Result A * St.

Definition ret {St A} (a : A) : M St A := fun s => (Ok a, s).

Definition bind {St A B} (m : M St A) (k : A -> M St B) : M St B :=
  fun s =>
    match m s with
    | (Ok a, s1) => k a s1
    | (Raise e, s1) => (Raise e, s1)
    | (Diverges, s1) => (Diverges, s1)
    end.

Definition raise {St A} (e : Exn) : M St A := fun s => (Raise e, s).

Definition gets {St A} (f : St -> A) : M St A := fun s => (Ok (f s), s).

Definition modify {St} (f : St -> St) : M St unit := fun s => (Ok tt, f s).

Declare Scope monad_scope.
Delimit Scope monad_scope with monad.
Notation "x <- c ;; k" := (bind c (fun x => k))
  (at level 61, c at next level, right associativity) : monad_scope.
Notation "c ;; k" := (bind c (fun _ => k))
  (at level 61, right associativity) : monad_scope.
Open Scope monad_scope.

(** [try: body finally: fin].  The [finally] block runs whether [body]
    returned or raised; an exception of [fin] replaces the pending one. *)
Definition try_finally {St A} (body : M St A) (fin : M St unit) : M St A :=
  fun s =>
    match body s with
    | (Diverges, s1) => (Diverges, s1)
    | (r, s1) =>
        match fin s1 with
        | (Ok _, s2) => (r, s2)
        | (Raise e, s2) => (Raise e, s2)
        | (Diverges, s2) => (Diverges, s2)
        end
    end.

(** [try: body except h11.ProtocolError: pass]. *)
Definition except_ProtocolError_pass {St} (body : M St unit) : M St unit :=
  fun s =>
    match body s with
    | (Raise (H11ProtocolError _), s1) => (Ok tt, s1)
    | other => other
    end.

(** [steps R m]: every run of [m] takes a state to one related to it by
    [R]. *)
Definition steps {St A} (R : St -> St -> Prop) (m : M St A) : Prop :=
  forall s, R s (snd (m s)).

(* ------------------------------------------------------------------ *)
(** ** The log of outgoing calls *)

(** The release callback is owned by the pool; it is known by its name. *)
Definition Callback := string.

Inductive Action :=
| h11_send (e : h11.Event)              (* h11_state.send(e) is called *)
| h11_next_event (r : h11.NextEvent)    (* h11_state.next_event() returned r *)
| h11_receive_data (d : bytes)          (* h11_state.receive_data(d) *)
| h11_start_next_cycle                  (* h11_state.start_next_cycle() *)
| reader_read (n : nat)                 (* reader.read(n, timeout) is called *)
| writer_write (d : bytes)              (* writer.write(d, timeout) is called *)
| writer_close                          (* writer.close() *)
| release (f : Callback).               (* on_release() *)

Definition is_release (a : Action) : bool :=
  match a with release _ => true | _ => false end.

Definition is_reader_read (a : Action) : bool :=
  match a with reader_read _ => true | _ => false end.

Definition is_need_data (a : Action) : bool :=
  match a with h11_next_event h11.NEED_DATA => true | _ => false end.

(** The calls that put a request on the wire: events handed to the state
    machine (other than the closing one) and writes. *)
Definition is_request_wire (a : Action) : bool :=
  match a with
  | h11_send h11.ConnectionClosed => false
  | h11_send _ => true
  | writer_write _ => true
  | _ => false
  end.

(** In a stretch of the log, every read of the transport comes right after
    the state machine answered [NEED_DATA] ([prev] tells whether the
    stretch itself starts right after such an answer). *)
Fixpoint reads_follow_need_data (prev : bool) (l : list Action) : bool :=
  match l with
  | [] => true
  | a :: l' =>
      (if is_reader_read a then prev else true)
      && reads_follow_need_data (is_need_data a) l'
  end.

(** The events the state machine handed out in a stretch of the log: the
    answers of [next_event()] other than [NEED_DATA]. *)
Fixpoint answers (l : list Action) : list h11.NextEvent :=
  match l with
  | [] => []
  | h11_next_event h11.NEED_DATA :: l' => answers l'
  | h11_next_event r :: l' => r :: answers l'
  | _ :: l' => answers l'
  end.

(** The calls made while receiving, and the calls made while closing. *)
Definition is_receiving (a : Action) : bool :=
  match a with
  | h11_next_event _ | reader_read _ | h11_receive_data _ => true
  | _ => false
  end.

Definition is_closing (a : Action) : bool :=
  match a with
  | h11_send h11.ConnectionClosed | writer_close | h11_start_next_cycle => true
  | _ => false
  end.

(** The log of events handed to the state machine one after the other,
    each followed by the write of the bytes it was turned into. *)
Definition wire (events : list h11.Event) (ds : list bytes) : list Action :=
  flat_map (fun ed => [h11_send (fst ed); writer_write (snd ed)])
    (combine events ds).

Definition is_request_event (e : h11.Event) : bool :=
  match e with h11.ConnectionClosed => false | _ => true end.

Definition not_release (a : Action) : bool := negb (is_release a).

(** The chunks handed to the state machine in a stretch of the log. *)
Fixpoint fed (l : list Action) : list bytes :=
  match l with
  | [] => []
  | h11_receive_data d :: l' => d :: fed l'
  | _ :: l' => fed l'
  end.

(** The chunks among what a reader delivered (the rest are timeouts). *)
Fixpoint somes (l : list (option bytes)) : list bytes :=
  match l with
  | [] => []
  | Some d :: l' => d :: somes l'
  | None :: l' => somes l'
  end.

(** The calls made while sending: events handed over, and writes. *)
Definition is_sending (a : Action) : bool :=
  match a with
  | h11_send _ | writer_write _ => true
  | _ => false
  end.

(** An object together with the log. *)
Record World (O : Type) := mkWorld { self : O; log : list Action }.
Arguments mkWorld {O} self log.
Arguments self {O} w.
Arguments log {O} w.

Definition emit {O} (a : Action) : M (World O) unit :=
  modify (fun w => mkWorld (self w) (log w ++ [a])).

(* ------------------------------------------------------------------ *)
(** ** The transport (streams.py) *)

(** Modelled from the spec: [BaseReader] of streams.py, which is not among
    the sources: "read(max_bytes, timeout) -> bytes; fails with
    read-timeout".  The reader holds what the peer will deliver, one entry
    per call of [read]: [Some data], or [None] when nothing arrives before
    the deadline.  When the list is used up the peer stays silent. *)
Record Reader := mkReader { arrivals : list (option bytes) }.

(** Modelled from the spec: [BaseReader.read], one call. *)
Definition Reader_read (r : Reader) : Result bytes * Reader :=
  match arrivals r with
  | Some data :: rest => (Ok data, mkReader rest)
  | None :: rest => (Raise ReadTimeout, mkReader rest)
  | [] => (Raise ReadTimeout, mkReader [])
  end.

(** Modelled from the spec: [BaseWriter] of streams.py, which is not among
    the sources: "write(bytes, timeout) -> (); close() -> ()", a write
    failing with a write timeout.  [faults] says, per call of [write],
    whether it times out; [written] is what reached the wire. *)
Record Writer := mkWriter {
  written : list bytes;
  faults : list bool;
  writer_closed : bool
}.

(** Modelled from the spec: [BaseWriter.write], one call. *)
Definition Writer_write (w : Writer) (data : bytes) : Result unit * Writer :=
  match faults w with
  | true :: rest =>
      (Raise WriteTimeout, mkWriter (written w) rest (writer_closed w))
  | false :: rest =>
      (Ok tt, mkWriter (written w ++ [data]) rest (writer_closed w))
  | [] => (Ok tt, mkWriter (written w ++ [data]) [] (writer_closed w))
  end.

(** Modelled from the spec: [BaseWriter.close], which does not fail. *)
Definition Writer_close (w : Writer) : Writer :=
  mkWriter (written w) (faults w) true.

(* ------------------------------------------------------------------ *)
(** ** models.py: requests and responses *)

(** Modelled from the spec: [Request] of models.py, which is not among the
    sources: "{method, target path, header list, body source}", the body
    source being a sequence of byte chunks. *)
Record Request := mkRequest {
  req_method : string;
  req_full_path : string;          (* request.url.full_path *)
  req_headers : h11.Headers;
  req_stream : list bytes          (* the chunks of request.stream() *)
}.

(* ------------------------------------------------------------------ *)
(** ** The rest of the package *)

(** A keyword of a call: left out, or given a value, which may be
    [None]. *)
Inductive Keyword (A : Type) :=
| absent
| given (value : option A).
Arguments absent {A}.
Arguments given {A} value.

(** [options.get(key, default)]: the value given for the key, be it [None],
    and [default] only when the key was left out. *)
Definition options_get {A} (key : Keyword A) (default : option A)
    : option A :=
  match key with
  | absent => default
  | given value => value
  end.

(** The keyword options [**options] of [send] and [connect]: the keys
    ["ssl"] and ["timeout"], and ["stream"], which is read with the
    default [False]. *)
Record Options (SSLConfig TimeoutConfig : Type) := mkOptions {
  kw_ssl : Keyword SSLConfig;
  kw_timeout : Keyword TimeoutConfig;
  opt_stream : bool
}.
Arguments mkOptions {SSLConfig TimeoutConfig} kw_ssl kw_timeout opt_stream.
Arguments kw_ssl {SSLConfig TimeoutConfig} o.
Arguments kw_timeout {SSLConfig TimeoutConfig} o.
Arguments opt_stream {SSLConfig TimeoutConfig} o.

(** [options.get("timeout")], as the drivers read it: [None] when the key
    was left out and when it was given as [None]. *)
Definition opt_timeout {SSLConfig TimeoutConfig}
    (o : Options SSLConfig TimeoutConfig) : option TimeoutConfig :=
  options_get (kw_timeout o) None.
Arguments opt_timeout : simpl never.

(** [Protocol] of streams.py: what the handshake negotiated. *)
Inductive Protocol := HTTP_11 | HTTP_2.

(** What http11.py and connection.py import from modules that are not
    among the sources, taken as given:
    - [TimeoutConfig] and [SSLConfig] of config.py, which the code only
      hands on, and what lies behind [ssl.load_ssl_context()];
    - [connect] of streams.py, which fails with [ConnectTimeout] when the
      transport is not established in time;
    - the multiplexed driver of http2.py: its state, its responses and the
      four operations the facade calls. *)
Class Package := {
  TimeoutConfig : Type;
  SSLConfig : Type;
  SSLContext : Type;
  load_ssl_context : SSLConfig -> Result SSLContext;
  streams_connect :
    string -> Z -> option SSLContext -> TimeoutConfig ->
    Result (Reader * Writer * Protocol);
  HTTP2Connection : Type;
  Response2 : Type;
  HTTP2Connection_init :
    Reader -> Writer -> option Callback -> HTTP2Connection;
  HTTP2Connection_send :
    nat -> Request -> Options SSLConfig TimeoutConfig ->
    M (World HTTP2Connection) Response2;
  HTTP2Connection_close : M (World HTTP2Connection) unit;
  HTTP2Connection_is_closed : HTTP2Connection -> bool
}.

(* ------------------------------------------------------------------ *)
(** ** http11.py *)

Section Model.

Context {H : Type} `{HC : h11.Connection H} {P : Package}.

Definition OptionalTimeout := option TimeoutConfig.

(** The attributes set by [HTTP11Connection.__init__]. *)
Record HTTP11Connection := mkHTTP11Connection {
  reader : Reader;
  writer : Writer;
  on_release : option Callback;
  h11_state : H
}.

Definition Conn := World HTTP11Connection.

Definition READ_NUM_BYTES : nat := 4096.

Definition HTTP11Connection_init (reader : Reader) (writer : Writer)
    (on_release : option Callback) : HTTP11Connection :=
  mkHTTP11Connection reader writer on_release h11.new.

Definition with_h11_state (s : H) (c : Conn) : Conn :=
  mkWorld (mkHTTP11Connection (reader (self c)) (writer (self c))
             (on_release (self c)) s) (log c).

Definition with_reader (r : Reader) (c : Conn) : Conn :=
  mkWorld (mkHTTP11Connection r (writer (self c)) (on_release (self c))
             (h11_state (self c))) (log c).

Definition with_writer (w : Writer) (c : Conn) : Conn :=
  mkWorld (mkHTTP11Connection (reader (self c)) w (on_release (self c))
             (h11_state (self c))) (log c).

Definition of_h11 {A} (r : h11.ProtocolError + A) : Result A :=
  match r with
  | inl e => Raise (H11ProtocolError e)
  | inr a => Ok a
  end.

(** [self.h11_state.send(event)] *)
Definition h11_state_send (event : h11.Event) : M Conn bytes :=
  emit (h11_send event) ;;
  fun c => let (r, s) := h11.send (h11_state (self c)) event in
           (of_h11 r, with_h11_state s c).

(** [self.h11_state.next_event()] *)
Definition h11_state_next_event : M Conn h11.NextEvent :=
  event <- (fun c => let (r, s) := h11.next_event (h11_state (self c)) in
                     (of_h11 r, with_h11_state s c)) ;;
  emit (h11_next_event event) ;;
  ret event.

(** [self.h11_state.receive_data(data)] *)
Definition h11_state_receive_data (data : bytes) : M Conn unit :=
  emit (h11_receive_data data) ;;
  modify (fun c =>
            with_h11_state (h11.receive_data (h11_state (self c)) data) c).

(** [self.h11_state.start_next_cycle()] *)
Definition h11_state_start_next_cycle : M Conn unit :=
  emit h11_start_next_cycle ;;
  fun c => let (r, s) := h11.start_next_cycle (h11_state (self c)) in
           (of_h11 r, with_h11_state s c).

(** [await self.reader.read(n, timeout)] *)
Definition reader_read_ (n : nat) (timeout : OptionalTimeout) : M Conn bytes :=
  emit (reader_read n) ;;
  fun c => let (r, rd) := Reader_read (reader (self c)) in
           (r, with_reader rd c).

(** [await self.writer.write(data, timeout)] *)
Definition writer_write_ (data : bytes) (timeout : OptionalTimeout)
    : M Conn unit :=
  emit (writer_write data) ;;
  fun c => let (r, wr) := Writer_write (writer (self c)) data in
           (r, with_writer wr c).

(** [await self.writer.close()] *)
Definition writer_close_ : M Conn unit :=
  emit writer_close ;;
  modify (fun c => with_writer (Writer_close (writer (self c))) c).

(** [HTTP11Connection._send_event] *)
Definition _send_event (event : h11.Event) (timeout : OptionalTimeout)
    : M Conn unit :=
  data <- h11_state_send event ;;
  writer_write_ data timeout.

(** The [while event is h11.NEED_DATA] loop of [_receive_event].  Every
    turn takes one entry off the reader's arrivals or ends with a read
    timeout, so [n], one more than the number of entries left, bounds the
    turns (see [_receive_event_returns]). *)
Fixpoint _receive_event_while (n : nat) (event : h11.NextEvent)
    (timeout : OptionalTimeout) : M Conn h11.NextEvent :=
  match event with
  | h11.NEED_DATA =>
      match n with
      | 0 => fun c => (Diverges, c)
      | S n' =>
          data <- reader_read_ READ_NUM_BYTES timeout ;;
          h11_state_receive_data data ;;
          event' <- h11_state_next_event ;;
          _receive_event_while n' event' timeout
      end
  | _ => ret event
  end.

(** [HTTP11Connection._receive_event] *)
Definition _receive_event (timeout : OptionalTimeout) : M Conn h11.NextEvent :=
  event <- h11_state_next_event ;;
  n <- gets (fun c => S (List.length (arrivals (reader (self c))))) ;;
  _receive_event_while n event timeout.

(** [HTTP11Connection.close] *)
Definition close : M Conn unit :=
  let event := h11.ConnectionClosed in
  except_ProtocolError_pass (h11_state_send event ;; ret tt) ;;
  writer_close_.

Definition is_DONE (s : h11.State) : bool := h11.State_eqb s h11.DONE.

(** [HTTP11Connection.response_closed] *)
Definition response_closed : M Conn unit :=
  ours <- gets (fun c => h11.our_state (h11_state (self c))) ;;
  theirs <- gets (fun c => h11.their_state (h11_state (self c))) ;;
  (if is_DONE ours && is_DONE theirs
   then h11_state_start_next_cycle
   else close) ;;
  hook <- gets (fun c => on_release (self c)) ;;
  match hook with
  | Some f => emit (release f)
  | None => ret tt
  end.

(** What the last two lines of [response_closed] add to the log. *)
Definition hook_calls (c : Conn) : list Action :=
  match on_release (self c) with
  | Some f => [release f]
  | None => []
  end.

(** [HTTP11Connection.is_closed] *)
Definition HTTP11Connection_is_closed (c : HTTP11Connection) : bool :=
  let ours := h11.our_state (h11_state c) in
  h11.State_eqb ours h11.CLOSED || h11.State_eqb ours h11.ERROR.

(** [HTTP11Connection._body_iter]: one resumption of the generator.  It
    waits for an event, yields the payload of a [Data] event ([Some]) and
    finishes on [EndOfMessage] ([None]); any other event fails the final
    [assert]. *)
Definition _body_iter (timeout : OptionalTimeout) : M Conn (option bytes) :=
  event <- _receive_event timeout ;;
  match event with
  | h11.Ev (h11.Data data) => ret (Some data)
  | h11.Ev h11.EndOfMessage => ret None
  | _ => raise AssertionError
  end.

(** Modelled from the spec: [Response] of models.py, which is not among the
    sources: "{status code, reason text, protocol label, header list, body,
    close hook}".  [body] is one pull of the lazy chunk sequence, [content]
    the body once it has been read, [is_closed] whether the response was
    closed. *)
Record Response := mkResponse {
  status_code : Z;
  reason : string;
  protocol : string;
  headers : h11.Headers;
  body : M Conn (option bytes);
  on_close : option (M Conn unit);
  content : option bytes;
  is_closed : bool
}.

Definition Response_init (status_code : Z) (reason protocol : string)
    (headers : h11.Headers) (body : M Conn (option bytes))
    (on_close : option (M Conn unit)) : Response :=
  mkResponse status_code reason protocol headers body on_close None false.

(** A response next to the connection its body reads from. *)
Definition RConn := (Response * Conn)%type.

Definition on_conn {A} (m : M Conn A) : M RConn A :=
  fun s => let (r, c) := m (snd s) in (r, (fst s, c)).

Definition set_is_closed (r : Response) : Response :=
  mkResponse (status_code r) (reason r) (protocol r) (headers r) (body r)
    (on_close r) (content r) true.

Definition set_content (b : bytes) (r : Response) : Response :=
  mkResponse (status_code r) (reason r) (protocol r) (headers r) (body r)
    (on_close r) (Some b) (is_closed r).

(** Modelled from the spec: [Response.close] of models.py: "closing the
    response ... fires the release hook"; "closing twice is a no-op". *)
Definition Response_close : M RConn unit :=
  closed <- gets (fun s : RConn => is_closed (fst s)) ;;
  if closed then ret tt
  else
    modify (fun s : RConn => (set_is_closed (fst s), snd s)) ;;
    hook <- gets (fun s : RConn => on_close (fst s)) ;;
    match hook with
    | Some f => on_conn f
    | None => ret tt
    end.

(** Modelled from the spec: the loop of [Response.read] of models.py,
    pulling the body until it ends, at most [fuel] chunks. *)
Fixpoint drain (fuel : nat) (pull : M Conn (option bytes)) (acc : bytes)
    : M Conn bytes :=
  match fuel with
  | 0 => fun c => (Diverges, c)
  | S fuel' =>
      part <- pull ;;
      match part with
      | Some data => drain fuel' pull (acc ++ data)
      | None => ret acc
      end
  end.

(** Modelled from the spec: [Response.read] of models.py: the body is a
    "lazy, forward-only sequence of byte chunks"; reading takes all of it,
    and the response is closed "implicitly after full consumption". *)
Definition Response_read (fuel : nat) : M RConn bytes :=
  c <- gets (fun s : RConn => content (fst s)) ;;
  match c with
  | Some b => ret b
  | None =>
      pull <- gets (fun s : RConn => body (fst s)) ;;
      b <- on_conn (drain fuel pull []) ;;
      Response_close ;;
      modify (fun s : RConn => (set_content b (fst s), snd s)) ;;
      ret b
  end.

(** The [async for data in request.stream()] loop of [send]. *)
Fixpoint send_request_body (chunks : list bytes) (timeout : OptionalTimeout)
    : M Conn unit :=
  match chunks with
  | [] => ret tt
  | data :: rest =>
      let event := h11.Data data in
      _send_event event timeout ;;
      send_request_body rest timeout
  end.

Definition is_InformationalResponse (event : h11.NextEvent) : bool :=
  match event with
  | h11.Ev (h11.InformationalResponse _ _ _) => true
  | _ => false
  end.

(** The first half of [send], down to "Finalize sending the request". *)
Definition send_request (request : Request) (timeout : OptionalTimeout)
    : M Conn unit :=
  (* Start sending the request. *)
  let method := encode (req_method request) in
  let target := req_full_path request in
  let headers := req_headers request in
  let event := h11.Request method target headers in
  _send_event event timeout ;;
  (* Send the request body. *)
  send_request_body (req_stream request) timeout ;;
  (* Finalize sending the request. *)
  let event := h11.EndOfMessage in
  _send_event event timeout.

(** "Start getting the response": the event that [send] then asserts to
    be an [h11.Response]. *)
Definition receive_response (timeout : OptionalTimeout)
    : M Conn h11.NextEvent :=
  event <- _receive_event timeout ;;
  if is_InformationalResponse event
  then _receive_event timeout
  else ret event.

(** The events of one request, in the order of the wire. *)
Definition request_events (request : Request) : list h11.Event :=
  h11.Request (encode (req_method request)) (req_full_path request)
    (req_headers request)
  :: map h11.Data (req_stream request) ++ [h11.EndOfMessage].

(** [HTTP11Connection.send].  [fuel] bounds the chunks a buffered read
    pulls. *)
Definition send (fuel : nat) (request : Request)
    (options : Options SSLConfig TimeoutConfig) : M Conn Response :=
  let timeout := opt_timeout options in
  let stream := opt_stream options in
  send_request request timeout ;;
  event <- receive_response timeout ;;
  match event with
  | h11.Ev (h11.Response status_code headers reason) =>
      let reason := decode_latin1 reason in
      let body := _body_iter timeout in
      let response :=
        Response_init status_code reason "HTTP/1.1" headers body
          (Some response_closed) in
      if negb stream then
        fun c =>
          let '(r, (response', c')) :=
            try_finally (Response_read fuel ;; ret tt) Response_close
              (response, c) in
          (match r with
           | Ok _ => Ok response'
           | Raise e => Raise e
           | Diverges => Diverges
           end, c')
      else ret response
  | _ => raise AssertionError
  end.

(** ** Notions used to state the properties *)

Definition is_NEED_DATA (event : h11.NextEvent) : bool :=
  match event with h11.NEED_DATA => true | _ => false end.

(** The bytes the state machine turns each event of a list into, when
    they are handed to it one after the other from state [s] (nothing for
    an event it rejects). *)
Fixpoint encodings (s : H) (events : list h11.Event) : list bytes :=
  match events with
  | [] => []
  | e :: rest =>
      let (r, s') := h11.send s e in
      match r with inr d => d | inl _ => [] end :: encodings s' rest
  end.

(** [_send_event] for each event of a list, stopping at the first
    exception. *)
Fixpoint send_all (events : list h11.Event) (timeout : OptionalTimeout)
    : M Conn unit :=
  match events with
  | [] => ret tt
  | e :: rest => _send_event e timeout ;; send_all rest timeout
  end.

(** The state machine after the events of a list were handed to it one
    after the other, from state [s]. *)
Fixpoint state_after (s : H) (events : list h11.Event) : H :=
  match events with
  | [] => s
  | e :: rest => state_after (snd (h11.send s e)) rest
  end.

(** Every event of the list gets through: the state machine, from state
    [s], accepts each of them, and none of the writes times out, [fs] being
    the faults of the writer, one entry per write. *)
Fixpoint goes_through (s : H) (fs : list bool) (events : list h11.Event)
    : bool :=
  match events with
  | [] => true
  | e :: rest =>
      let (r, s') := h11.send s e in
      match r with
      | inr _ => negb (hd false fs) && goes_through s' (tl fs) rest
      | inl _ => false
      end
  end.

(** Sending stops at the [j]-th event of the list (counting from 0), with
    the exception [e] and after [k] calls: either the state machine, having
    taken the events before it, rejects it, and its [send] was call
    [2j + 1]; or the state machine accepts it and the write of its bytes,
    call [2j + 2], times out. *)
Definition stops_at (s : H) (fs : list bool) (events : list h11.Event)
    (j k : nat) (e : Exn) : Prop :=
  let sj := state_after s (firstn j events) in
  let ej := nth j events h11.EndOfMessage in
  (k = 2 * j + 1
   /\ exists pe, fst (h11.send sj ej) = inl pe /\ e = H11ProtocolError pe)
  \/ (k = 2 * j + 2
      /\ (exists d, fst (h11.send sj ej) = inr d)
      /\ nth j fs false = true
      /\ e = WriteTimeout).

(** The head of an exchange: the request was sent and the event that came
    back is a final response, leaving the driver in [c1]. *)
Definition final_response_arrived (request : Request)
    (options : Options SSLConfig TimeoutConfig) (c : Conn)
    (st : Z) (hd : h11.Headers) (rs : bytes) (c1 : Conn) : Prop :=
  (send_request request (opt_timeout options) ;;
   receive_response (opt_timeout options)) c
  = (Ok (h11.Ev (h11.Response st hd rs)), c1).

(** The log grows by actions that all satisfy [ok], and the release hook of
    the driver stays the one it was given. *)
Definition grows (ok : Action -> bool) (c c' : Conn) : Prop :=
  on_release (self c') = on_release (self c)
  /\ exists new, log c' = log c ++ new /\ forallb ok new = true.

(** Between two states nothing more was put on the wire. *)
Definition same_written (c c' : Conn) : Prop :=
  written (writer (self c')) = written (writer (self c)).

(** Between two states the reader was not used and the transport was not
    closed. *)
Definition same_transport (c c' : Conn) : Prop :=
  reader (self c') = reader (self c)
  /\ writer_closed (writer (self c')) = writer_closed (writer (self c)).

(** Between two states the transport was not closed. *)
Definition same_closed (c c' : Conn) : Prop :=
  writer_closed (writer (self c')) = writer_closed (writer (self c)).

(** The exceptions of receiving: the reader's timeout and the state
    machine's protocol error. *)
Definition receiving_failure (e : Exn) : Prop :=
  e = ReadTimeout \/ exists pe, e = H11ProtocolError pe.

(** What was taken from the reader between two states was handed to the
    state machine, chunk by chunk and in order. *)
Definition hands_on (c c' : Conn) : Prop :=
  exists new consumed,
    log c' = log c ++ new
    /\ arrivals (reader (self c)) = consumed ++ arrivals (reader (self c'))
    /\ fed new = somes consumed.

(* ------------------------------------------------------------------ *)
(** ** connection.py *)

(** Modelled from the spec: [Origin] of models.py, which is not among the
    sources: "{scheme, hostname, port, is-secure}". *)
Record Origin := mkOrigin {
  scheme : string;
  hostname : string;
  port : Z;
  is_ssl : bool
}.

(** The attributes set by [HTTPConnection.__init__]. *)
Record HTTPConnection := mkHTTPConnection {
  origin : Origin;
  ssl : SSLConfig;
  timeout : TimeoutConfig;
  release_func : option Callback;
  h11_connection : option HTTP11Connection;
  h2_connection : option HTTP2Connection
}.

Definition HTTPConnection_init (origin : Origin) (ssl : SSLConfig)
    (timeout : TimeoutConfig) (release_func : option Callback)
    : HTTPConnection :=
  mkHTTPConnection origin ssl timeout release_func None None.

Definition Facade := World HTTPConnection.

Definition with_h11_connection (d : option HTTP11Connection)
    (c : HTTPConnection) : HTTPConnection :=
  mkHTTPConnection (origin c) (ssl c) (timeout c) (release_func c) d
    (h2_connection c).

Definition with_h2_connection (d : option HTTP2Connection) (c : HTTPConnection)
    : HTTPConnection :=
  mkHTTPConnection (origin c) (ssl c) (timeout c) (release_func c)
    (h11_connection c) d.

(** Running a method of the bound HTTP/1.1 driver: it works on the driver
    object the facade holds and on the same log. *)
Definition on_h11 {A} (d : HTTP11Connection) (m : M Conn A) : M Facade A :=
  fun w =>
    let (r, c) := m (mkWorld d (log w)) in
    (r, mkWorld (with_h11_connection (Some (self c)) (self w)) (log c)).

(** The same for the multiplexed driver. *)
Definition on_h2 {A} (d : HTTP2Connection) (m : M (World HTTP2Connection) A)
    : M Facade A :=
  fun w =>
    let (r, c) := m (mkWorld d (log w)) in
    (r, mkWorld (with_h2_connection (Some (self c)) (self w)) (log c)).

Definition lift_result {A} (r : Result A) : M Facade A := fun w => (r, w).

(** [functools.partial(self.release_func, self)]: the callback with its
    argument bound is still the pool's callback. *)
Definition partial (f : Callback) : Callback := f.

(** [assert isinstance(value, cls)] for a value that is either of the
    class or [None]. *)
Definition assert_isinstance {A} (value : option A) : M Facade A :=
  match value with
  | Some v => ret v
  | None => raise AssertionError
  end.

(** [HTTPConnection.connect] *)
Definition HTTPConnection_connect (options : Options SSLConfig TimeoutConfig)
    : M Facade unit :=
  this <- gets (fun w : Facade => self w) ;;
  let ssl := options_get (kw_ssl options) (Some (ssl this)) in
  let timeout := options_get (kw_timeout options) (Some (timeout this)) in
  ssl <- assert_isinstance ssl ;;
  timeout <- assert_isinstance timeout ;;
  let hostname := hostname (origin this) in
  let port := port (origin this) in
  ssl_context <- (if is_ssl (origin this)
                  then ctx <- lift_result (load_ssl_context ssl) ;;
                       ret (Some ctx)
                  else ret None) ;;
  let on_release :=
    match release_func this with
    | None => None
    | Some f => Some (partial f)
    end in
  conn <- lift_result (streams_connect hostname port ssl_context timeout) ;;
  let '(reader, writer, protocol) := conn in
  match protocol with
  | HTTP_2 =>
      modify (fun w : Facade =>
        mkWorld (with_h2_connection
                   (Some (HTTP2Connection_init reader writer on_release))
                   (self w)) (log w))
  | HTTP_11 =>
      modify (fun w : Facade =>
        mkWorld (with_h11_connection
                   (Some (HTTP11Connection_init reader writer on_release))
                   (self w)) (log w))
  end.

(** What [connect] reads as its configuration: the value given in the call
    when the key is there, be it [None], and the attribute of the instance
    when the key was left out. *)
Definition effective_ssl (options : Options SSLConfig TimeoutConfig)
    (c : HTTPConnection) : option SSLConfig :=
  options_get (kw_ssl options) (Some (ssl c)).

Definition effective_timeout (options : Options SSLConfig TimeoutConfig)
    (c : HTTPConnection) : option TimeoutConfig :=
  options_get (kw_timeout options) (Some (timeout c)).

(** [ctx] is the context [connect] hands to [streams.connect] when it works
    with the configuration [cfg]: none for a plain origin, the loaded one
    for a secure origin. *)
Definition context_is (cfg : SSLConfig) (c : HTTPConnection)
    (ctx : option SSLContext) : Prop :=
  (is_ssl (origin c) = false /\ ctx = None)
  \/ (is_ssl (origin c) = true
      /\ exists loaded, load_ssl_context cfg = Ok loaded /\ ctx = Some loaded).

Definition both_None (c : HTTPConnection) : bool :=
  match h11_connection c, h2_connection c with
  | None, None => true
  | _, _ => false
  end.

(** [HTTPConnection.send]: the response comes from whichever driver is
    bound. *)
Definition HTTPConnection_send (fuel : nat) (request : Request)
    (options : Options SSLConfig TimeoutConfig)
    : M Facade (Response2 + Response) :=
  unconnected <- gets (fun w : Facade => both_None (self w)) ;;
  (if unconnected then HTTPConnection_connect options else ret tt) ;;
  this <- gets (fun w : Facade => self w) ;;
  match h2_connection this with
  | Some d =>
      response <- on_h2 d (HTTP2Connection_send fuel request options) ;;
      ret (inl response)
  | None =>
      match h11_connection this with
      | None => raise AssertionError
      | Some d =>
          response <- on_h11 d (send fuel request options) ;;
          ret (inr response)
      end
  end.

(** [HTTPConnection.close] *)
Definition HTTPConnection_close : M Facade unit :=
  this <- gets (fun w : Facade => self w) ;;
  match h2_connection this with
  | Some d => on_h2 d HTTP2Connection_close
  | None =>
      match h11_connection this with
      | Some d => on_h11 d close
      | None => ret tt
      end
  end.

(** [HTTPConnection.is_http2] *)
Definition HTTPConnection_is_http2 (c : HTTPConnection) : bool :=
  match h2_connection c with Some _ => true | None => false end.

(** [HTTPConnection.is_closed]: a property, it reads the object and either
    returns a boolean or fails its [assert]. *)
Definition HTTPConnection_is_closed (c : HTTPConnection) : Result bool :=
  match h2_connection c with
  | Some d => Ok (HTTP2Connection_is_closed d)
  | None =>
      match h11_connection c with
      | None => Raise AssertionError
      | Some d => Ok (HTTP11Connection_is_closed d)
      end
  end.

End Model.

(* ------------------------------------------------------------------ *)
(** ** A reference state machine

    [Sim] follows h11's transition tables (h11/_state.py) and its
    [Connection] methods, with two simplifications: no protocol switching,
    and a one-byte framing in place of HTTP syntax on the receiving side:
    - ["1"] is an interim response ([100 Continue]);
    - ["2"] followed by a byte [n] is a final response [200 OK] whose body
      has the declared length [n];
    - ["3"] followed by a byte [n] is the same with [Connection: close];
    - the [n] bytes after a final response are its body. *)

Module Sim.

Record Machine := mkMachine {
  client : h11.State;             (* states[CLIENT] *)
  server : h11.State;             (* states[SERVER] *)
  keep_alive : bool;
  receive_buffer : bytes;
  receive_buffer_closed : bool;
  remaining : nat                 (* body bytes still expected *)
}.

Definition initial : Machine :=
  mkMachine h11.IDLE h11.IDLE true [] false 0.

Definition with_states (c s : h11.State) (m : Machine) : Machine :=
  mkMachine c s (keep_alive m) (receive_buffer m) (receive_buffer_closed m)
    (remaining m).

(** [EVENT_TRIGGERED_TRANSITIONS[CLIENT]] *)
Definition client_transition (st : h11.State) (e : h11.Event)
    : option h11.State :=
  match st, e with
  | h11.IDLE, h11.Request _ _ _ => Some h11.SEND_BODY
  | h11.IDLE, h11.ConnectionClosed => Some h11.CLOSED
  | h11.SEND_BODY, h11.Data _ => Some h11.SEND_BODY
  | h11.SEND_BODY, h11.EndOfMessage => Some h11.DONE
  | h11.DONE, h11.ConnectionClosed => Some h11.CLOSED
  | h11.MUST_CLOSE, h11.ConnectionClosed => Some h11.CLOSED
  | h11.CLOSED, h11.ConnectionClosed => Some h11.CLOSED
  | _, _ => None
  end.

(** [EVENT_TRIGGERED_TRANSITIONS[SERVER]]; the [Request] row is the
    special case [(Request, CLIENT)]. *)
Definition server_transition (st : h11.State) (e : h11.Event)
    : option h11.State :=
  match st, e with
  | h11.IDLE, h11.ConnectionClosed => Some h11.CLOSED
  | h11.IDLE, h11.Response _ _ _ => Some h11.SEND_BODY
  | h11.IDLE, h11.Request _ _ _ => Some h11.SEND_RESPONSE
  | h11.SEND_RESPONSE, h11.InformationalResponse _ _ _ => Some h11.SEND_RESPONSE
  | h11.SEND_RESPONSE, h11.Response _ _ _ => Some h11.SEND_BODY
  | h11.SEND_BODY, h11.Data _ => Some h11.SEND_BODY
  | h11.SEND_BODY, h11.EndOfMessage => Some h11.DONE
  | h11.DONE, h11.ConnectionClosed => Some h11.CLOSED
  | h11.MUST_CLOSE, h11.ConnectionClosed => Some h11.CLOSED
  | h11.CLOSED, h11.ConnectionClosed => Some h11.CLOSED
  | _, _ => None
  end.

(** One round of [_fire_state_triggered_transitions]: the automatic
    [DONE -> MUST_CLOSE] when keep-alive is off, then
    [STATE_TRIGGERED_TRANSITIONS].  A second round changes nothing. *)
Definition fire_state_triggered (m : Machine) : Machine :=
  let close_if_done st :=
    if negb (keep_alive m) && h11.State_eqb st h11.DONE
    then h11.MUST_CLOSE else st in
  let c := close_if_done (client m) in
  let s := close_if_done (server m) in
  match c, s with
  | h11.CLOSED, h11.DONE => with_states c h11.MUST_CLOSE m
  | h11.CLOSED, h11.IDLE => with_states c h11.MUST_CLOSE m
  | h11.ERROR, h11.DONE => with_states c h11.MUST_CLOSE m
  | h11.DONE, h11.CLOSED => with_states h11.MUST_CLOSE s m
  | h11.IDLE, h11.CLOSED => with_states h11.MUST_CLOSE s m
  | h11.DONE, h11.ERROR => with_states h11.MUST_CLOSE s m
  | _, _ => with_states c s m
  end.

(** [ConnectionState.process_error] *)
Definition process_error_client (m : Machine) : Machine :=
  fire_state_triggered (with_states h11.ERROR (server m) m).

Definition process_error_server (m : Machine) : Machine :=
  fire_state_triggered (with_states (client m) h11.ERROR m).

Definition bytes_eqb (a b : bytes) : bool :=
  if list_eq_dec Byte.byte_eq_dec a b then true else false.

(** [_keep_alive(event)]: false when a [Connection: close] header is
    present. *)
Definition keeps_alive (headers : h11.Headers) : bool :=
  negb (existsb (fun kv => bytes_eqb (fst kv) (encode "connection")
                           && bytes_eqb (snd kv) (encode "close")) headers).

Definition disable_keep_alive_unless (keep : bool) (m : Machine) : Machine :=
  if keep then m
  else fire_state_triggered
         (mkMachine (client m) (server m) false (receive_buffer m)
            (receive_buffer_closed m) (remaining m)).

Definition event_keeps_alive (e : h11.Event) : bool :=
  match e with
  | h11.Request _ _ headers => keeps_alive headers
  | h11.Response _ headers _ => keeps_alive headers
  | _ => true
  end.

(** [Connection._process_event] for an event of the client. *)
Definition process_client_event (m : Machine) (e : h11.Event)
    : option Machine :=
  match client_transition (client m) e with
  | None => None
  | Some c =>
      let after_server :=
        match e with
        | h11.Request _ _ _ =>
            match server_transition (server m) e with
            | Some s => Some (with_states c s m)
            | None => None
            end
        | _ => Some (with_states c (server m) m)
        end in
      match after_server with
      | None => None
      | Some m1 =>
          Some (disable_keep_alive_unless (event_keeps_alive e)
                  (fire_state_triggered m1))
      end
  end.

(** [Connection._process_event] for an event of the server. *)
Definition process_server_event (m : Machine) (e : h11.Event)
    : option Machine :=
  match server_transition (server m) e with
  | None => None
  | Some s =>
      Some (disable_keep_alive_unless (event_keeps_alive e)
              (fire_state_triggered (with_states (client m) s m)))
  end.

Definition CRLF : bytes := [Byte.x0d; Byte.x0a].

(** What the writers of h11 produce, without body framing. *)
Definition serialize (e : h11.Event) : bytes :=
  match e with
  | h11.Request method target headers =>
      method ++ encode " " ++ encode target ++ encode " HTTP/1.1" ++ CRLF
      ++ List.concat
           (map (fun kv => fst kv ++ encode ": " ++ snd kv ++ CRLF) headers)
      ++ CRLF
  | h11.Data data => data
  | _ => []
  end.

(** [Connection.send] *)
Definition send (m : Machine) (e : h11.Event)
    : (h11.ProtocolError + bytes) * Machine :=
  if h11.State_eqb (client m) h11.ERROR
  then (inl h11.LocalProtocolError, m)
  else
    match process_client_event m e with
    | Some m1 => (inr (serialize e), m1)
    | None => (inl h11.LocalProtocolError, process_error_client m)
    end.

(** [Connection.receive_data]: an empty string marks the end of the
    stream. *)
Definition receive_data (m : Machine) (data : bytes) : Machine :=
  match data with
  | [] => mkMachine (client m) (server m) (keep_alive m) (receive_buffer m)
            true (remaining m)
  | _ => mkMachine (client m) (server m) (keep_alive m)
           (receive_buffer m ++ data) (receive_buffer_closed m) (remaining m)
  end.

Definition with_buffer (b : bytes) (n : nat) (m : Machine) : Machine :=
  mkMachine (client m) (server m) (keep_alive m) b (receive_buffer_closed m) n.

(** The reader for the peer's current state: [inr (Some (e, m'))] when an
    event is complete, [inr None] when more bytes are needed, [inl tt] on
    bytes that are not legal. *)
Definition read_event (m : Machine) : unit + option (h11.Event * Machine) :=
  match server m with
  | h11.IDLE | h11.SEND_RESPONSE =>
      match receive_buffer m with
      | [] => inr None
      | Byte.x31 :: rest =>
          inr (Some (h11.InformationalResponse 100 [] (encode "Continue"),
                     with_buffer rest 0 m))
      | Byte.x32 :: [] => inr None
      | Byte.x32 :: n :: rest =>
          inr (Some (h11.Response 200 [] (encode "OK"),
                     with_buffer rest (Byte.to_nat n) m))
      | Byte.x33 :: [] => inr None
      | Byte.x33 :: n :: rest =>
          inr (Some (h11.Response 200 [(encode "connection", encode "close")]
                       (encode "OK"),
                     with_buffer rest (Byte.to_nat n) m))
      | _ => inl tt
      end
  | h11.SEND_BODY =>
      match remaining m, receive_buffer m with
      | 0, _ => inr (Some (h11.EndOfMessage, m))
      | _, [] => inr None
      | n, buf =>
          let data := firstn n buf in
          inr (Some (h11.Data data,
                     with_buffer (skipn n buf) (n - List.length data) m))
      end
  | _ =>
      match receive_buffer m with
      | [] => inr None
      | _ => inl tt
      end
  end.

(** [Connection._extract_next_receive_event] *)
Definition extract_next_receive_event (m : Machine)
    : unit + (h11.NextEvent * Machine) :=
  match server m, receive_buffer m with
  | h11.DONE, _ :: _ => inr (h11.PAUSED, m)
  | _, _ =>
      match read_event m with
      | inl tt => inl tt
      | inr (Some (e, m1)) => inr (h11.Ev e, m1)
      | inr None =>
          match receive_buffer m, receive_buffer_closed m, server m with
          | [], true, h11.SEND_BODY => inl tt       (* read_eof *)
          | [], true, _ => inr (h11.Ev h11.ConnectionClosed, m)
          | _, _, _ => inr (h11.NEED_DATA, m)
          end
      end
  end.

(** [Connection.next_event] *)
Definition next_event (m : Machine)
    : (h11.ProtocolError + h11.NextEvent) * Machine :=
  if h11.State_eqb (server m) h11.ERROR
  then (inl h11.RemoteProtocolError, m)
  else
    match extract_next_receive_event m with
    | inl tt => (inl h11.RemoteProtocolError, process_error_server m)
    | inr (h11.Ev e, m1) =>
        match process_server_event m1 e with
        | Some m2 => (inr (h11.Ev e), m2)
        | None => (inl h11.RemoteProtocolError, process_error_server m1)
        end
    | inr (h11.NEED_DATA, m1) =>
        if receive_buffer_closed m1
        then (inl h11.RemoteProtocolError, process_error_server m1)
        else (inr h11.NEED_DATA, m1)
    | inr (h11.PAUSED, m1) => (inr h11.PAUSED, m1)
    end.

(** [Connection.start_next_cycle] *)
Definition start_next_cycle (m : Machine)
    : (h11.ProtocolError + unit) * Machine :=
  if h11.State_eqb (client m) h11.DONE && h11.State_eqb (server m) h11.DONE
  then (inr tt, with_states h11.IDLE h11.IDLE m)
  else (inl h11.LocalProtocolError, m).

#[global] Instance connection : h11.Connection Machine := {
  h11.new := initial;
  h11.send := send;
  h11.next_event := next_event;
  h11.receive_data := receive_data;
  h11.start_next_cycle := start_next_cycle;
  h11.our_state := client;
  h11.their_state := server
}.

End Sim.

(* ------------------------------------------------------------------ *)
(** ** Concrete runs *)

Module Run.

(** A package around [Sim]: no configuration, an unreachable network, and a
    multiplexed driver that only remembers whether it was closed. *)
#[global] Instance package : Package := {
  TimeoutConfig := unit;
  SSLConfig := unit;
  SSLContext := unit;
  load_ssl_context := fun _ => Ok tt;
  streams_connect := fun _ _ _ _ => Raise ConnectTimeout;
  HTTP2Connection := bool;
  Response2 := unit;
  HTTP2Connection_init := fun _ _ _ => false;
  HTTP2Connection_send := fun _ _ _ => ret tt;
  HTTP2Connection_close := modify (fun w => mkWorld true (log w));
  HTTP2Connection_is_closed := fun closed => closed
}.

(** A fresh driver whose peer will deliver [arrivals]. *)
Definition fresh (arrivals : list (option bytes)) (hook : option Callback)
    : Conn (H := Sim.Machine) :=
  mkWorld
    (HTTP11Connection_init (mkReader arrivals) (mkWriter [] [] false) hook) [].

Definition GET : Request := mkRequest "GET" "/" [] [].

Definition POST (chunks : list bytes) : Request :=
  mkRequest "POST" "/upload" [] chunks.

Definition buffered : Options (@SSLConfig package) (@TimeoutConfig package) :=
  mkOptions absent absent false.
Definition streaming : Options (@SSLConfig package) (@TimeoutConfig package) :=
  mkOptions absent absent true.

(** [200 OK], declared length 5, body [hello], all in one arrival. *)
Definition ok_hello : list (option bytes) :=
  [Some ([Byte.x32; Byte.x05] ++ encode "hello")].

(** [100 Continue], then the same response. *)
Definition continue_then_ok : list (option bytes) :=
  [Some [Byte.x31]; Some ([Byte.x32; Byte.x05] ++ encode "hello")].

(** Two interim responses before the final one. *)
Definition two_interim_then_ok : list (option bytes) :=
  [Some [Byte.x31; Byte.x31]; Some ([Byte.x32; Byte.x05] ++ encode "hello")].

(** The final response arrives, the body stops after two bytes. *)
Definition body_times_out : list (option bytes) :=
  [Some ([Byte.x32; Byte.x05] ++ encode "he"); None].

(** [200 OK] with [Connection: close]. *)
Definition ok_close : list (option bytes) :=
  [Some ([Byte.x33; Byte.x02] ++ encode "hi")].

Definition pool : option Callback := Some "release_connection"%string.

(** A driver whose state machine is [m]. *)
Definition driver_in (m : Sim.Machine) : Conn (H := Sim.Machine) :=
  mkWorld (mkHTTP11Connection (mkReader []) (mkWriter [] [] false) pool m) [].

(** After a response with [Connection: close] was read to its end. *)
Definition must_close : Conn :=
  driver_in (Sim.mkMachine h11.MUST_CLOSE h11.MUST_CLOSE false [] false 0).

(** In the middle of a request body. *)
Definition mid_request : Conn :=
  driver_in (Sim.mkMachine h11.SEND_BODY h11.SEND_RESPONSE true [] false 0).


(** Request and response both complete. *)
Definition exchange_done : Conn :=
  driver_in (Sim.mkMachine h11.DONE h11.DONE true [] false 0).

(** The driver once [GET] was sent and the final response has arrived. *)
Definition head_received (arrivals : list (option bytes)) : Conn :=
  snd ((send_request GET None ;; receive_response None) (fresh arrivals pool)).

(** The driver once [GET] was sent, and after [n] more calls of
    [_receive_event]. *)
Definition request_sent (arrivals : list (option bytes)) : Conn :=
  snd (send_request GET None (fresh arrivals pool)).

Fixpoint events_received (n : nat) (c : Conn (H := Sim.Machine)) : Conn :=
  match n with
  | 0 => c
  | S n' => snd (_receive_event None (events_received n' c))
  end.

(** The body bytes the state machine of a driver still expects. *)
Definition expected (c : Conn (H := Sim.Machine)) : nat :=
  Sim.remaining (h11_state (self c)).

(** The driver after a buffered read pulled the body. *)
Definition body_pulled (arrivals : list (option bytes)) : Conn :=
  snd (drain 8 (_body_iter None) [] (head_received arrivals)).

(** The facade before [connect], and bound to either driver. *)
Definition unconnected : Facade (H := Sim.Machine) :=
  mkWorld (HTTPConnection_init (mkOrigin "https" "example.org" 443 true)
             tt tt pool) [].

Definition bound_h11 : Facade (H := Sim.Machine) :=
  mkWorld (with_h11_connection (Some (self exchange_done)) (self unconnected))
    [].

Definition bound_h2 : Facade (H := Sim.Machine) :=
  mkWorld (with_h2_connection (Some false) (self unconnected)) [].

(** A network that answers: the peer speaks HTTP/1.1 and will deliver
    [200 OK] with [hello]. *)
Definition online : Package := {|
  TimeoutConfig := unit;
  SSLConfig := unit;
  SSLContext := unit;
  load_ssl_context := fun _ => Ok tt;
  streams_connect := fun _ _ _ _ =>
    Ok (mkReader ok_hello, mkWriter [] [] false, HTTP_11);
  HTTP2Connection := bool;
  Response2 := unit;
  HTTP2Connection_init := fun _ _ _ => false;
  HTTP2Connection_send := fun _ _ _ => ret tt;
  HTTP2Connection_close := modify (fun w => mkWorld true (log w));
  HTTP2Connection_is_closed := fun closed => closed
|}.

Definition unconnected_online : Facade (H := Sim.Machine) (P := online) :=
  mkWorld (HTTPConnection_init (P := online)
             (mkOrigin "https" "example.org" 443 true) tt tt pool) [].

Definition buffered_online
    : Options (@SSLConfig online) (@TimeoutConfig online) :=
  mkOptions absent absent false.

(** The call [send(request, timeout=None)], and one that gives a timeout
    configuration. *)
Definition timeout_None
    : Options (@SSLConfig online) (@TimeoutConfig online) :=
  mkOptions absent (given None) false.

Definition timeout_given
    : Options (@SSLConfig online) (@TimeoutConfig online) :=
  mkOptions absent (given (Some tt)) false.

(** A fresh driver whose second write times out. *)
Definition flaky : Conn (H := Sim.Machine) :=
  mkWorld (HTTP11Connection_init (mkReader ok_hello)
             (mkWriter [] [false; true] false) pool) [].

End Run.

(* ------------------------------------------------------------------ *)
(** * Properties *)

Section Properties.

Context {H : Type} `{HC : h11.Connection H} {P : Package}.

Local Abbreviation Conn := (Conn (H := H)).
Local Abbreviation Facade := (Facade (H := H) (P := P)).
Local Abbreviation grows := (grows (H := H)).

(** ** The calls of the driver, run on a state *)

Lemma run_h11_state_send (e : h11.Event) (c : Conn) :
  h11_state_send e c =
  (of_h11 (fst (h11.send (h11_state (self c)) e)),
   mkWorld (mkHTTP11Connection (reader (self c)) (writer (self c))
              (on_release (self c)) (snd (h11.send (h11_state (self c)) e)))
     (log c ++ [h11_send e])).
Proof.
  unfold h11_state_send, bind, emit, modify, with_h11_state; simpl.
  destruct (h11.send (h11_state (self c)) e); reflexivity.
Qed.

Lemma run_writer_close (c : Conn) :
  writer_close_ c =
  (Ok tt,
   mkWorld (mkHTTP11Connection (reader (self c))
              (Writer_close (writer (self c)))
              (on_release (self c)) (h11_state (self c)))
     (log c ++ [writer_close])).
Proof. reflexivity. Qed.

Lemma run_h11_state_start_next_cycle (c : Conn) :
  h11_state_start_next_cycle c =
  let (r, s) := h11.start_next_cycle (h11_state (self c)) in
  (of_h11 r,
   mkWorld (mkHTTP11Connection (reader (self c)) (writer (self c))
              (on_release (self c)) s)
     (log c ++ [h11_start_next_cycle])).
Proof.
  unfold h11_state_start_next_cycle, bind, emit, modify, with_h11_state; simpl.
  destruct (h11.start_next_cycle (h11_state (self c))); reflexivity.
Qed.

(** [close] never raises, and its effect is the same whether or not the
    state machine accepted the closing event. *)
Lemma run_close (c : Conn) :
  close c =
  (Ok tt,
   mkWorld (mkHTTP11Connection (reader (self c))
              (Writer_close (writer (self c)))
              (on_release (self c))
              (snd (h11.send (h11_state (self c)) h11.ConnectionClosed)))
     (log c ++ [h11_send h11.ConnectionClosed; writer_close])).
Proof.
  unfold close, except_ProtocolError_pass.
  unfold bind at 1. unfold bind at 1.
  rewrite run_h11_state_send.
  destruct (fst (h11.send (h11_state (self c)) h11.ConnectionClosed))
    as [e | d]; simpl; rewrite run_writer_close; simpl;
    rewrite <- app_assoc; reflexivity.
Qed.

Lemma run_h11_state_next_event (c : Conn) :
  h11_state_next_event c =
  match h11.next_event (h11_state (self c)) with
  | (inr ne, s) =>
      (Ok ne,
       mkWorld (mkHTTP11Connection (reader (self c)) (writer (self c))
                  (on_release (self c)) s)
         (log c ++ [h11_next_event ne]))
  | (inl e, s) =>
      (Raise (H11ProtocolError e),
       mkWorld (mkHTTP11Connection (reader (self c)) (writer (self c))
                  (on_release (self c)) s)
         (log c))
  end.
Proof.
  unfold h11_state_next_event, bind, emit, modify, ret, with_h11_state; simpl.
  destruct (h11.next_event (h11_state (self c))) as [[e | ne] s]; reflexivity.
Qed.

Lemma run_reader_read (n : nat) (timeout : OptionalTimeout) (c : Conn) :
  reader_read_ n timeout c =
  (fst (Reader_read (reader (self c))),
   mkWorld (mkHTTP11Connection (snd (Reader_read (reader (self c))))
              (writer (self c)) (on_release (self c)) (h11_state (self c)))
     (log c ++ [reader_read n])).
Proof.
  unfold reader_read_, bind, emit, modify, with_reader; simpl.
  destruct (Reader_read (reader (self c))); reflexivity.
Qed.

Lemma run_h11_state_receive_data (d : bytes) (c : Conn) :
  h11_state_receive_data d c =
  (Ok tt,
   mkWorld (mkHTTP11Connection (reader (self c)) (writer (self c))
              (on_release (self c))
              (h11.receive_data (h11_state (self c)) d))
     (log c ++ [h11_receive_data d])).
Proof. reflexivity. Qed.

Lemma run_writer_write (d : bytes) (timeout : OptionalTimeout) (c : Conn) :
  writer_write_ d timeout c =
  (fst (Writer_write (writer (self c)) d),
   mkWorld (mkHTTP11Connection (reader (self c))
              (snd (Writer_write (writer (self c)) d))
              (on_release (self c)) (h11_state (self c)))
     (log c ++ [writer_write d])).
Proof.
  unfold writer_write_, bind, emit, modify, with_writer; simpl.
  destruct (Writer_write (writer (self c)) d); reflexivity.
Qed.

(** One turn of the loop of [_receive_event]. *)
Lemma _receive_event_while_step n timeout (c : Conn) :
  _receive_event_while (S n) h11.NEED_DATA timeout c =
  match Reader_read (reader (self c)) with
  | (Ok data, rd) =>
      let c1 : Conn :=
        mkWorld (mkHTTP11Connection rd (writer (self c)) (on_release (self c))
                   (h11.receive_data (h11_state (self c)) data))
          (log c ++ [reader_read READ_NUM_BYTES; h11_receive_data data]) in
      match h11_state_next_event c1 with
      | (Ok event, c2) => _receive_event_while n event timeout c2
      | (Raise e, c2) => (Raise e, c2)
      | (Diverges, c2) => (Diverges, c2)
      end
  | (Raise e, rd) =>
      (Raise e,
       mkWorld (mkHTTP11Connection rd (writer (self c)) (on_release (self c))
                  (h11_state (self c)))
         (log c ++ [reader_read READ_NUM_BYTES]))
  | (Diverges, rd) =>
      (Diverges,
       mkWorld (mkHTTP11Connection rd (writer (self c)) (on_release (self c))
                  (h11_state (self c)))
         (log c ++ [reader_read READ_NUM_BYTES]))
  end.
Proof.
  simpl. unfold bind at 1. rewrite run_reader_read.
  destruct (Reader_read (reader (self c))) as [[data | e |] rd]; simpl; trivial.
  unfold bind at 1. rewrite run_h11_state_receive_data. simpl.
  rewrite <- app_assoc. reflexivity.
Qed.

Lemma Reader_read_shrinks (r : Reader) (data : bytes) (r' : Reader) :
  Reader_read r = (Ok data, r') ->
  S (List.length (arrivals r')) = List.length (arrivals r).
Proof.
  unfold Reader_read. destruct (arrivals r) as [| [d |] rest]; intros E;
    inversion E; reflexivity.
Qed.

Lemma Reader_read_total (r : Reader) : fst (Reader_read r) <> Diverges.
Proof.
  unfold Reader_read. destruct (arrivals r) as [| [d |] rest]; discriminate.
Qed.

(** The loop of [_receive_event] ends within the turns it is given. *)
Lemma _receive_event_while_returns n event timeout (c : Conn) :
  List.length (arrivals (reader (self c))) < n ->
  fst (_receive_event_while n event timeout c) <> Diverges.
Proof.
  revert event c. induction n as [| n IH]; intros event c Hlt.
  - inversion Hlt.
  - destruct event as [e | |]; try discriminate.
    rewrite _receive_event_while_step.
    destruct (Reader_read (reader (self c))) as [[data | e |] rd] eqn:Er;
      simpl; try discriminate.
    + rewrite run_h11_state_next_event. simpl.
      destruct (h11.next_event _) as [[e | ne] s]; try discriminate.
      apply IH. simpl. apply Reader_read_shrinks in Er. lia.
    + pose proof (Reader_read_total (reader (self c))) as T.
      rewrite Er in T. contradiction.
Qed.

(** [_receive_event] always comes back: with an event or an exception. *)
Lemma _receive_event_returns timeout (c : Conn) :
  fst (_receive_event timeout c) <> Diverges.
Proof.
  unfold _receive_event. unfold bind at 1.
  rewrite run_h11_state_next_event.
  destruct (h11.next_event _) as [[e | ne] s]; try discriminate.
  unfold bind at 1. unfold gets at 1.
  apply _receive_event_while_returns. simpl. lia.
Qed.

(** [send], run on a state: the request is sent, the response awaited;
    a streamed response is returned as it is, a buffered one after its
    body was pulled to the end and [response_closed] has run. *)
Lemma run_send fuel request options (c : Conn) :
  send fuel request options c =
  let timeout := opt_timeout options in
  match send_request request timeout c with
  | (Ok _, c0) =>
      match receive_response timeout c0 with
      | (Ok (h11.Ev (h11.Response st hd rs)), c1) =>
          let response :=
            Response_init st (decode_latin1 rs) "HTTP/1.1" hd
              (_body_iter timeout) (Some response_closed) in
          if opt_stream options then (Ok response, c1)
          else
            match drain fuel (_body_iter timeout) [] c1 with
            | (Ok b, c2) =>
                match response_closed c2 with
                | (Ok _, c3) =>
                    (Ok (set_content b (set_is_closed response)), c3)
                | (Raise e, c3) => (Raise e, c3)
                | (Diverges, c3) => (Diverges, c3)
                end
            | (Raise e, c2) =>
                match response_closed c2 with
                | (Ok _, c3) => (Raise e, c3)
                | (Raise e', c3) => (Raise e', c3)
                | (Diverges, c3) => (Diverges, c3)
                end
            | (Diverges, c2) => (Diverges, c2)
            end
      | (Ok _, c1) => (Raise AssertionError, c1)
      | (Raise e, c1) => (Raise e, c1)
      | (Diverges, c1) => (Diverges, c1)
      end
  | (Raise e, c0) => (Raise e, c0)
  | (Diverges, c0) => (Diverges, c0)
  end.
Proof.
  unfold send. cbv zeta. unfold bind at 1.
  destruct (send_request request (opt_timeout options) c) as [[[] | e |] c0];
    trivial.
  unfold bind at 1.
  destruct (receive_response (opt_timeout options) c0) as [[event | e |] c1];
    trivial.
  destruct event as [[m t h | st hd rs | st hd rs | d | |] | |]; trivial.
  destruct (opt_stream options); trivial.
  cbn [negb]. unfold try_finally, Response_read, Response_close.
  unfold bind, gets, modify, on_conn, ret.
  cbn -[response_closed drain _body_iter].
  destruct (drain fuel (_body_iter (opt_timeout options)) [] c1)
    as [[b | e |] c2]; cbn -[response_closed drain _body_iter]; trivial;
    destruct (response_closed c2) as [[[] | e' |] c3]; reflexivity.
Qed.

(** ** What a computation may add to the log

    For a preorder [R], [steps R] goes through the monad's combinators. *)

Section Steps.

Context {St : Type} (R : St -> St -> Prop).
Hypothesis R_refl : forall s, R s s.
Hypothesis R_trans : forall s1 s2 s3, R s1 s2 -> R s2 s3 -> R s1 s3.

Lemma steps_ret {A} (a : A) : steps R (ret a).
Proof. intros s. apply R_refl. Qed.

Lemma steps_raise {A} (e : Exn) : steps R (raise (A := A) e).
Proof. intros s. apply R_refl. Qed.

Lemma steps_gets {A} (f : St -> A) : steps R (gets f).
Proof. intros s. apply R_refl. Qed.

Lemma steps_bind {A B} (m : M St A) (k : A -> M St B) :
  steps R m -> (forall a, steps R (k a)) -> steps R (bind m k).
Proof.
  intros Hm Hk s. unfold bind. specialize (Hm s).
  destruct (m s) as [[a | e |] s1]; simpl in *; trivial.
  apply R_trans with s1; trivial. apply Hk.
Qed.

Lemma steps_try_finally {A} (body : M St A) (fin : M St unit) :
  steps R body -> steps R fin -> steps R (try_finally body fin).
Proof.
  intros Hb Hf s. unfold try_finally. specialize (Hb s).
  destruct (body s) as [[a | e |] s1]; simpl in *; trivial;
    specialize (Hf s1); destruct (fin s1) as [[[] | e' |] s2]; simpl in *;
    apply R_trans with s1; trivial.
Qed.

Lemma steps_except_ProtocolError_pass (body : M St unit) :
  steps R body -> steps R (except_ProtocolError_pass body).
Proof.
  intros Hb s. unfold except_ProtocolError_pass. specialize (Hb s).
  destruct (body s) as [[a | [] |] s1]; simpl in *; trivial.
Qed.

End Steps.

Lemma grows_refl ok (c : Conn) : grows ok c c.
Proof. split; trivial. exists []. rewrite app_nil_r. auto. Qed.

Lemma grows_trans ok (c1 c2 c3 : Conn) :
  grows ok c1 c2 -> grows ok c2 c3 -> grows ok c1 c3.
Proof.
  intros (E1 & n1 & L1 & F1) (E2 & n2 & L2 & F2). split.
  - congruence.
  - exists (n1 ++ n2). rewrite L2, L1, <- app_assoc, forallb_app, F1, F2. auto.
Qed.

Lemma grows_one ok (c : Conn) (r w : _) (s : H) (a : Action) :
  ok a = true ->
  grows ok c (mkWorld (mkHTTP11Connection r w (on_release (self c)) s)
                (log c ++ [a])).
Proof.
  intros E. split; trivial. exists [a]. simpl. rewrite E. auto.
Qed.

Create HintDb grows.
#[local] Hint Resolve grows_refl grows_trans grows_one : grows.

Section Grows.

Variable ok : Action -> bool.

Local Abbreviation quiet := (steps (grows ok)).

Lemma quiet_bind {A B} (m : M Conn A) (k : A -> M Conn B) :
  quiet m -> (forall a, quiet (k a)) -> quiet (bind m k).
Proof. apply steps_bind; eauto with grows. Qed.

Lemma quiet_ret {A} (a : A) : quiet (ret a).
Proof. apply steps_ret; eauto with grows. Qed.

Lemma quiet_emit (a : Action) : ok a = true -> quiet (emit a).
Proof. intros E c. simpl. destruct c as [[r w h s] l]. apply grows_one, E. Qed.

Lemma quiet_h11_state_send e :
  ok (h11_send e) = true -> quiet (h11_state_send e).
Proof. intros E c. rewrite run_h11_state_send. apply grows_one, E. Qed.

Lemma quiet_writer_write d t :
  ok (writer_write d) = true -> quiet (writer_write_ d t).
Proof. intros E c. rewrite run_writer_write. apply grows_one, E. Qed.

Lemma quiet__send_event e t :
  ok (h11_send e) = true -> (forall d, ok (writer_write d) = true) ->
  quiet (_send_event e t).
Proof.
  intros E W. apply quiet_bind.
  - apply quiet_h11_state_send, E.
  - intros d. apply quiet_writer_write, W.
Qed.

Lemma quiet_close :
  (forall a, is_closing a = true -> ok a = true) -> quiet close.
Proof.
  intros Hc c. rewrite run_close. split; trivial.
  exists [h11_send h11.ConnectionClosed; writer_close]. simpl.
  rewrite !Hc; auto.
Qed.

Lemma quiet_send_request request t :
  (forall e, ok (h11_send e) = true) ->
  (forall d, ok (writer_write d) = true) ->
  quiet (send_request request t).
Proof.
  intros E W. unfold send_request.
  apply quiet_bind; [apply quiet__send_event; auto | intros _].
  apply quiet_bind; [| intros _; apply quiet__send_event; auto].
  induction (req_stream request) as [| d chunks IH]; simpl.
  - apply quiet_ret.
  - apply quiet_bind; [apply quiet__send_event; auto | intros _; exact IH].
Qed.

Hypothesis ok_receiving : forall a, is_receiving a = true -> ok a = true.

Lemma quiet_h11_state_next_event : quiet h11_state_next_event.
Proof.
  intros c. rewrite run_h11_state_next_event.
  destruct (h11.next_event _) as [[e | ne] s]; simpl.
  - split; trivial. exists []. rewrite app_nil_r. auto.
  - apply grows_one. auto.
Qed.

Lemma quiet_reader_read n t : quiet (reader_read_ n t).
Proof. intros c. rewrite run_reader_read. apply grows_one. auto. Qed.

Lemma quiet_h11_state_receive_data d : quiet (h11_state_receive_data d).
Proof. intros c. rewrite run_h11_state_receive_data. apply grows_one. auto. Qed.

Lemma quiet__receive_event_while n event t :
  quiet (_receive_event_while n event t).
Proof.
  revert event. induction n as [| n IH]; intros event.
  - destruct event; try apply quiet_ret. intros c. apply grows_refl.
  - destruct event; try apply quiet_ret. simpl.
    apply quiet_bind; [apply quiet_reader_read | intros data].
    apply quiet_bind; [apply quiet_h11_state_receive_data | intros _].
    apply quiet_bind; [apply quiet_h11_state_next_event | intros event'].
    apply IH.
Qed.

Lemma quiet__receive_event t : quiet (_receive_event t).
Proof.
  apply quiet_bind; [apply quiet_h11_state_next_event | intros event].
  apply quiet_bind; [apply steps_gets, grows_refl | intros n].
  apply quiet__receive_event_while.
Qed.

Lemma quiet_receive_response t : quiet (receive_response t).
Proof.
  apply quiet_bind; [apply quiet__receive_event | intros event].
  destruct (is_InformationalResponse event).
  - apply quiet__receive_event.
  - apply quiet_ret.
Qed.

Lemma quiet__body_iter t : quiet (_body_iter t).
Proof.
  apply quiet_bind; [apply quiet__receive_event | intros event].
  destruct event as [[] | |]; try apply quiet_ret;
    apply steps_raise, grows_refl.
Qed.

Lemma quiet_drain fuel pull acc : quiet pull -> quiet (drain fuel pull acc).
Proof.
  intros Hp. revert acc. induction fuel as [| fuel IH]; intros acc.
  - intros c. apply grows_refl.
  - simpl. apply quiet_bind; [exact Hp | intros [data |]].
    + apply IH.
    + apply quiet_ret.
Qed.

Hypothesis ok_closing : forall a, is_closing a = true -> ok a = true.
Hypothesis ok_release : forall f, ok (release f) = true.

Lemma quiet_response_closed : quiet response_closed.
Proof.
  unfold response_closed.
  apply quiet_bind; [apply steps_gets, grows_refl | intros ours].
  apply quiet_bind; [apply steps_gets, grows_refl | intros theirs].
  apply quiet_bind.
  - destruct (is_DONE ours && is_DONE theirs).
    + intros c. rewrite run_h11_state_start_next_cycle.
      destruct (h11.start_next_cycle _). apply grows_one. auto.
    + apply quiet_close, ok_closing.
  - intros _. apply quiet_bind; [apply steps_gets, grows_refl | intros hook].
    destruct hook; [apply quiet_emit, ok_release | apply quiet_ret].
Qed.

(** Once the request is out, [send] adds nothing but receiving and closing
    calls and the release hook. *)
Lemma send_after_request fuel request options (c : Conn) :
  match send_request request (opt_timeout options) c with
  | (Ok _, c0) => grows ok c0 (snd (send fuel request options c))
  | (Raise e, c0) => send fuel request options c = (Raise e, c0)
  | (Diverges, c0) => send fuel request options c = (Diverges, c0)
  end.
Proof.
  rewrite run_send. cbv zeta.
  destruct (send_request request (opt_timeout options) c) as [[[] | e |] c0];
    trivial.
  pose proof (quiet_receive_response (opt_timeout options) c0) as G1.
  destruct (receive_response (opt_timeout options) c0) as [[event | e |] c1];
    cbn [snd] in G1; trivial.
  destruct event as [[m t h | st hd rs | st hd rs | d | |] | |]; trivial.
  destruct (opt_stream options); trivial.
  pose proof (quiet_drain fuel (_body_iter (opt_timeout options)) []
                (quiet__body_iter (opt_timeout options)) c1) as G2.
  destruct (drain fuel _ [] c1) as [[b | e |] c2]; cbn [snd] in G2;
    try (pose proof (quiet_response_closed c2) as G3;
         destruct (response_closed c2) as [[[] | e' |] c3]; cbn [snd] in *);
    eauto with grows.
Qed.

End Grows.

(** ** The order of the writes *)

Lemma send_all_app es1 es2 timeout (c : Conn) :
  send_all (es1 ++ es2) timeout c
  = (send_all es1 timeout ;; send_all es2 timeout) c.
Proof.
  revert c. induction es1 as [| e es1 IH]; intros c; simpl.
  - reflexivity.
  - unfold bind.
    destruct (_send_event e timeout c) as [[[] | x |] c1]; trivial.
Qed.

Lemma send_request_body_all chunks timeout (c : Conn) :
  send_request_body chunks timeout c = send_all (map h11.Data chunks) timeout c.
Proof.
  revert c. induction chunks as [| d chunks IH]; intros c; simpl; trivial.
  unfold bind. destruct (_send_event (h11.Data d) timeout c) as [[[] | x |] c1];
    trivial.
Qed.

Lemma send_request_all request timeout (c : Conn) :
  send_request request timeout c = send_all (request_events request) timeout c.
Proof.
  unfold send_request, request_events. cbv zeta.
  cbn [send_all]. unfold bind.
  destruct (_send_event _ timeout c) as [[[] | x |] c1]; trivial.
  rewrite send_all_app. unfold bind.
  rewrite send_request_body_all.
  destruct (send_all _ timeout c1) as [[[] | x |] c2]; trivial.
  cbn [send_all]. unfold bind.
  destruct (_send_event _ timeout c2) as [[[] | x |] c3]; trivial.
Qed.

Lemma Writer_write_total (w : Writer) (d : bytes) :
  fst (Writer_write w d) <> Diverges.
Proof. unfold Writer_write. destruct (faults w) as [| [] ?]; discriminate. Qed.

Lemma encodings_length (s : H) events :
  List.length (encodings s events) = List.length events.
Proof.
  revert s. induction events as [| e events IH]; intros s; cbn; trivial.
  destruct (h11.send s e) as [r s']. cbn. rewrite IH. reflexivity.
Qed.

Lemma Writer_write_outcome (w : Writer) (d : bytes) :
  Writer_write w d =
  if hd false (faults w)
  then (Raise WriteTimeout,
        mkWriter (written w) (tl (faults w)) (writer_closed w))
  else (Ok tt,
        mkWriter (written w ++ [d]) (tl (faults w)) (writer_closed w)).
Proof. unfold Writer_write. destruct (faults w) as [| [] ?]; reflexivity. Qed.

Lemma stops_at_later (s s' : H) fs ev d events j k e :
  h11.send s ev = (inr d, s') ->
  stops_at s' (tl fs) events j k e ->
  stops_at s fs (ev :: events) (S j) (2 + k) e.
Proof.
  intros Es. unfold stops_at. cbn [firstn state_after nth]. rewrite Es.
  cbn [snd].
  assert (En : nth (S j) fs false = nth j (tl fs) false)
    by (destruct fs; [destruct j |]; reflexivity).
  rewrite En.
  intros [(-> & Hr) | (-> & Ha & Hf & He)]; [left | right];
    (split; [lia | auto]).
Qed.

(** What [send_all] adds to the log is an initial stretch of [wire]: all
    of it when every event gets through, and otherwise the stretch that
    ends with the first call that raises, the rejected [send] or the write
    that timed out. *)
Lemma send_all_outcome events timeout (c : Conn) :
  exists k,
    log (snd (send_all events timeout c))
    = log c ++ firstn k (wire events (encodings (h11_state (self c)) events))
    /\ ((k = 2 * List.length events
         /\ goes_through (h11_state (self c)) (faults (writer (self c)))
              events = true
         /\ fst (send_all events timeout c) = Ok tt)
        \/ exists j e,
             j < List.length events
             /\ goes_through (h11_state (self c))
                  (faults (writer (self c))) events = false
             /\ goes_through (h11_state (self c))
                  (faults (writer (self c))) (firstn j events) = true
             /\ fst (send_all events timeout c) = Raise e
             /\ stops_at (h11_state (self c)) (faults (writer (self c)))
                  events j k e).
Proof.
  revert c. induction events as [| ev events IH]; intros c.
  - exists 0. cbn. rewrite app_nil_r. split; [reflexivity |]. left. auto.
  - cbn [send_all encodings goes_through]. unfold _send_event. unfold bind.
    rewrite run_h11_state_send.
    destruct (h11.send (h11_state (self c)) ev) as [[pe | d] s] eqn:Es;
      cbn [of_h11 fst snd].
    + exists 1. split; [reflexivity |].
      right. exists 0, (H11ProtocolError pe).
      split; [cbn; lia |]. split; [reflexivity |]. split; [reflexivity |].
      split; [reflexivity |].
      left. split; [reflexivity |]. exists pe. cbn. rewrite Es. auto.
    + rewrite run_writer_write.
      cbn [self log writer reader on_release h11_state].
      rewrite Writer_write_outcome.
      destruct (hd false (faults (writer (self c)))) eqn:Ef; cbn [fst snd].
      * exists 2. split; [cbn; rewrite <- app_assoc; reflexivity |].
        right. exists 0, WriteTimeout.
        split; [cbn; lia |]. split; [reflexivity |]. split; [reflexivity |].
        split; [reflexivity |].
        right. split; [reflexivity |]. cbn. rewrite Es.
        split; [exists d; reflexivity |]. split; [| reflexivity].
        destruct (faults (writer (self c))); [discriminate Ef | exact Ef].
      * match goal with |- context [send_all events timeout ?c2] =>
          destruct (IH c2) as (k & Elog & Hk) end.
        cbn [self log writer h11_state faults] in Elog, Hk.
        exists (2 + k). split.
        -- rewrite Elog. cbn [log wire combine flat_map fst snd app firstn].
           rewrite <- !app_assoc. reflexivity.
        -- destruct Hk as [(-> & Hg & Hr) | (j & e & Hj & Hn & Hg & Hr & Hs)].
           ++ left. split; [cbn [List.length]; lia |]. auto.
           ++ right. exists (S j), e.
              split; [cbn [List.length]; lia |].
              split; [exact Hn |].
              split; [cbn [firstn goes_through]; rewrite Es, Ef; exact Hg |].
              split; [exact Hr |].
              exact (stops_at_later _ _ _ _ _ _ _ _ _ Es Hs).
Qed.

Lemma wire_is_request_wire events ds k :
  forallb is_request_event events = true ->
  filter is_request_wire (firstn k (wire events ds))
  = firstn k (wire events ds).
Proof.
  intros He. apply forallb_filter_id.
  assert (A : forallb is_request_wire (wire events ds) = true).
  { unfold wire. revert ds He.
    induction events as [| e events IH]; intros [| d ds] He; trivial.
    cbn in He. apply andb_prop in He as [E1 E2].
    cbn. rewrite (IH ds E2). destruct e; trivial; discriminate. }
  rewrite forallb_forall in *. intros a Ha. apply A.
  rewrite <- (firstn_skipn k (wire events ds)). apply in_or_app. auto.
Qed.

Lemma request_events_are_request_events request :
  forallb is_request_event (request_events request) = true.
Proof.
  unfold request_events. cbn. rewrite forallb_app. cbn.
  rewrite andb_true_r. induction (req_stream request); cbn; trivial.
Qed.

(** C7: the calls by which [send] puts a request on the wire are, in this
    order, the request-start event, one data event per body chunk in the
    order of the chunks, and the end-of-message event, each followed by the
    write of the bytes the state machine turned it into, before the next
    event is handed to the state machine.  They come first and in one
    stretch: what [send] calls after them is no such call.  All of them are
    made when every event gets through, that is when the state machine
    accepts each and no write times out.  When one does not, the stretch
    ends with the first call that fails, the [send] of the event the state
    machine rejects or the write that times out: [send] raises that
    exception and calls nothing after it. *)
Theorem send_writes_in_order fuel request options (c : Conn) :
  let events := request_events request in
  let s := h11_state (self c) in
  let fs := faults (writer (self c)) in
  let ds := encodings s events in
  List.length ds = List.length events
  /\ exists k rest,
       log (snd (send fuel request options c))
       = log c ++ firstn k (wire events ds) ++ rest
       /\ filter is_request_wire (firstn k (wire events ds) ++ rest)
          = firstn k (wire events ds)
       /\ if goes_through s fs events
          then k = 2 * List.length events
          else exists j e,
                 j < List.length events
                 /\ goes_through s fs (firstn j events) = true
                 /\ stops_at s fs events j k e
                 /\ fst (send fuel request options c) = Raise e
                 /\ rest = [].
Proof.
  intros events s fs ds. split; [apply encodings_length |].
  pose proof (send_after_request (fun a => negb (is_request_wire a))
                (fun a => match a with
                          | h11_next_event _ | reader_read _
                          | h11_receive_data _ => fun _ => eq_refl
                          | _ => fun E => False_ind _ (Bool.diff_false_true E)
                          end)) as Tail.
  assert (Hc : forall a,
             is_closing a = true -> negb (is_request_wire a) = true).
  { intros [[] | | | | | | |]; cbn; trivial; discriminate. }
  specialize (Tail Hc (fun _ => eq_refl) fuel request options c).
  rewrite send_request_all in Tail.
  destruct (send_all_outcome events (opt_timeout options) c)
    as (k & Elog & Hk).
  fold events in Tail. fold s fs in Hk. fold s ds in Elog.
  destruct Hk as [(Ek & Hg & Hr) | (j & e & Hj & Hn & Hg & Hr & Hs)].
  - destruct (send_all events (opt_timeout options) c) as [r c0];
      cbn [fst snd] in *. subst r.
    destruct Tail as (_ & rest & Erest & Hrest).
    exists k, rest.
    split; [rewrite Erest, Elog, <- app_assoc; reflexivity |].
    split; [| rewrite Hg; exact Ek].
    rewrite filter_app, wire_is_request_wire
      by apply request_events_are_request_events.
    replace (filter is_request_wire rest) with (@nil Action).
    + apply app_nil_r.
    + symmetry. clear - Hrest. induction rest as [| a l IH]; trivial.
      cbn in *. apply andb_prop in Hrest as [E1 E2].
      destruct (is_request_wire a); [discriminate | auto].
  - destruct (send_all events (opt_timeout options) c) as [r c0];
      cbn [fst snd] in *. subst r.
    rewrite Tail. cbn [fst snd].
    exists k, [].
    split; [rewrite app_nil_r; exact Elog |].
    split; [rewrite app_nil_r;
            apply wire_is_request_wire, request_events_are_request_events |].
    rewrite Hn. exists j, e. auto.
Qed.

Lemma answers_app (l1 l2 : list Action) :
  answers (l1 ++ l2) = answers l1 ++ answers l2.
Proof.
  induction l1 as [| a l1 IH]; simpl; trivial.
  destruct a as [| [e | |] | | | | | |]; simpl; rewrite ?IH; reflexivity.
Qed.

Lemma _receive_event_while_done n event timeout (c : Conn) :
  is_NEED_DATA event = false ->
  _receive_event_while n event timeout c = (Ok event, c).
Proof. destruct n, event; simpl; intros E; trivial; discriminate. Qed.

(** What the loop of [_receive_event] adds to the log: reads that each
    follow a [NEED_DATA], and, when it returns an event, that event as the
    only one handed out. *)
Lemma _receive_event_while_log n event timeout (c : Conn) :
  exists new,
    log (snd (_receive_event_while n event timeout c)) = log c ++ new
    /\ reads_follow_need_data (is_NEED_DATA event) new = true
    /\ match fst (_receive_event_while n event timeout c) with
       | Ok ne => is_NEED_DATA ne = false
                  /\ answers new = (if is_NEED_DATA event then [ne] else [])
       | _ => answers new = [] /\ is_NEED_DATA event = true
       end.
Proof.
  revert event c. induction n as [| n IH]; intros event c;
    destruct (is_NEED_DATA event) eqn:En;
    try (rewrite _receive_event_while_done by exact En;
         exists []; cbn; rewrite app_nil_r; auto; fail).
  - destruct event; try discriminate.
    exists []. cbn. rewrite app_nil_r. auto.
  - destruct event; try discriminate.
    rewrite _receive_event_while_step.
    destruct (Reader_read (reader (self c))) as [[data | e |] rd];
      try (exists [reader_read READ_NUM_BYTES]; cbn; auto; fail).
    cbv zeta. rewrite run_h11_state_next_event. cbn [self h11_state log].
    destruct (h11.next_event _) as [[e | ne] s].
    + exists [reader_read READ_NUM_BYTES; h11_receive_data data]. cbn. auto.
    + destruct (is_NEED_DATA ne) eqn:Ene.
      * destruct ne; try discriminate.
        match goal with |- context [_receive_event_while n _ timeout ?c2] =>
          destruct (IH h11.NEED_DATA c2) as (new & El & Hg & Ha) end.
        exists ([reader_read READ_NUM_BYTES; h11_receive_data data;
                 h11_next_event h11.NEED_DATA] ++ new).
        split; [| split].
        -- rewrite El. cbn [log]. rewrite <- !app_assoc. reflexivity.
        -- exact Hg.
        -- rewrite answers_app. exact Ha.
      * rewrite _receive_event_while_done by exact Ene.
        exists [reader_read READ_NUM_BYTES; h11_receive_data data;
                h11_next_event ne].
        cbn [snd fst log]. rewrite <- !app_assoc.
        destruct ne; try discriminate; cbn; auto.
Qed.

Lemma run__receive_event timeout (c : Conn) :
  _receive_event timeout c =
  match h11.next_event (h11_state (self c)) with
  | (inr ne, s) =>
      _receive_event_while (S (List.length (arrivals (reader (self c))))) ne
        timeout
        (mkWorld (mkHTTP11Connection (reader (self c)) (writer (self c))
                    (on_release (self c)) s)
           (log c ++ [h11_next_event ne]))
  | (inl e, s) =>
      (Raise (H11ProtocolError e),
       mkWorld (mkHTTP11Connection (reader (self c)) (writer (self c))
                  (on_release (self c)) s)
         (log c))
  end.
Proof.
  unfold _receive_event. unfold bind at 1. rewrite run_h11_state_next_event.
  destruct (h11.next_event _) as [[e | ne] s]; reflexivity.
Qed.


Lemma _receive_event_log timeout (c : Conn) :
  exists new,
    log (snd (_receive_event timeout c)) = log c ++ new
    /\ reads_follow_need_data false new = true
    /\ match fst (_receive_event timeout c) with
       | Ok ne => is_NEED_DATA ne = false /\ answers new = [ne]
       | _ => answers new = []
       end.
Proof.
  rewrite run__receive_event.
  destruct (h11.next_event _) as [[e | ne] s].
  - exists []. cbn. rewrite app_nil_r. auto.
  - destruct (is_NEED_DATA ne) eqn:Ene.
    + destruct ne; try discriminate.
      match goal with |- context [_receive_event_while ?n _ timeout ?c2] =>
        destruct (_receive_event_while_log n h11.NEED_DATA timeout c2)
          as (new & El & Hg & Ha);
        destruct (_receive_event_while n h11.NEED_DATA timeout c2) as [r c3]
      end.
      cbn [fst snd log] in *.
      exists (h11_next_event h11.NEED_DATA :: new).
      split; [| split].
      * rewrite El. rewrite <- app_assoc. reflexivity.
      * exact Hg.
      * destruct r; cbn; tauto.
    + rewrite _receive_event_while_done by exact Ene.
      exists [h11_next_event ne]. cbn [fst snd log].
      destruct ne; try discriminate; cbn; auto.
Qed.


(** One pull of the body hands out one event: the [Data] event whose
    payload it yields, or the [EndOfMessage] on which it finishes. *)
Lemma _body_iter_log timeout (c : Conn) :
  exists new,
    log (snd (_body_iter timeout c)) = log c ++ new
    /\ match fst (_body_iter timeout c) with
       | Ok (Some d) => answers new = [h11.Ev (h11.Data d)]
       | Ok None => answers new = [h11.Ev h11.EndOfMessage]
       | _ => True
       end.
Proof.
  destruct (_receive_event_log timeout c) as (new & El & _ & Ha).
  exists new. unfold _body_iter, bind.
  destruct (_receive_event timeout c) as [[[[] | |] | e |] c1];
    cbn [fst snd raise ret] in *; tauto.
Qed.

Lemma _body_iter_returns timeout (c : Conn) :
  fst (_body_iter timeout c) <> Diverges.
Proof.
  pose proof (_receive_event_returns timeout c) as T.
  unfold _body_iter, bind.
  destruct (_receive_event timeout c) as [[[[] | |] | e |] c1];
    cbn [fst raise ret] in *; try discriminate. contradiction.
Qed.

(** A drain that returns has pulled [Data] events up to [EndOfMessage] and
    returns their payloads, in order; one that ran out of fuel has pulled
    as many [Data] events as it had fuel. *)
Lemma drain_log fuel timeout acc (c : Conn) :
  match drain fuel (_body_iter timeout) acc c with
  | (Ok b, c2) =>
      exists new chunks,
        log c2 = log c ++ new
        /\ answers new
           = map (fun d => h11.Ev (h11.Data d)) chunks
             ++ [h11.Ev h11.EndOfMessage]
        /\ b = acc ++ List.concat chunks
  | (Raise _, _) => True
  | (Diverges, c2) =>
      exists new chunks,
        log c2 = log c ++ new
        /\ answers new = map (fun d => h11.Ev (h11.Data d)) chunks
        /\ List.length chunks = fuel
  end.
Proof.
  revert acc c. induction fuel as [| fuel IH]; intros acc c; cbn [drain].
  - exists [], []. cbn. rewrite app_nil_r. auto.
  - unfold bind.
    destruct (_body_iter_log timeout c) as (new1 & El1 & Ha1).
    pose proof (_body_iter_returns timeout c) as T.
    destruct (_body_iter timeout c) as [[[d |] | e |] c1]; cbn [fst snd] in *;
      trivial; try contradiction.
    + specialize (IH (acc ++ d) c1).
      destruct (drain fuel (_body_iter timeout) (acc ++ d) c1)
        as [[b | e |] c2]; trivial.
      * destruct IH as (new & chunks & El & Ha & Eb).
        exists (new1 ++ new), (d :: chunks). split; [| split].
        -- rewrite El, El1, app_assoc. reflexivity.
        -- rewrite answers_app, Ha1, Ha. reflexivity.
        -- rewrite Eb. cbn. rewrite app_assoc. reflexivity.
      * destruct IH as (new & chunks & El & Ha & Eb).
        exists (new1 ++ new), (d :: chunks). split; [| split].
        -- rewrite El, El1, app_assoc. reflexivity.
        -- rewrite answers_app, Ha1, Ha. reflexivity.
        -- cbn. congruence.
    + exists new1, []. cbn. rewrite app_nil_r. auto.
Qed.

(** More fuel does not change a drain that returned. *)
Lemma drain_fuel_mono fuel {pull : M Conn (option bytes)} acc (c : Conn) :
  fst (drain fuel pull acc c) <> Diverges ->
  forall fuel', fuel <= fuel' ->
  drain fuel' pull acc c = drain fuel pull acc c.
Proof.
  revert acc c. induction fuel as [| fuel IH]; intros acc c Hr fuel' Hle.
  - cbn in Hr. contradiction.
  - destruct fuel' as [| fuel']; [lia |].
    cbn [drain] in *. unfold bind in *.
    destruct (pull c) as [[[d |] | e |] c1]; trivial.
    apply IH; [exact Hr | lia].
Qed.

(** ** Interim responses *)

(** What [receive_response] does with an interim response: it asks for one
    more event and returns that one, whatever it is. *)
Lemma receive_response_skips_one timeout (c0 c1 : Conn) s1 h1 r1 :
  _receive_event timeout c0
  = (Ok (h11.Ev (h11.InformationalResponse s1 h1 r1)), c1) ->
  receive_response timeout c0 = _receive_event timeout c1.
Proof. intros E. unfold receive_response, bind. rewrite E. reflexivity. Qed.

(** C1, where the code departs from it: when two interim responses come
    before the final one, [send] discards the first, takes the second for
    the final response and fails its assertion; no response is returned
    and the final response is never asked for. *)
Theorem send_fails_on_second_interim_response fuel request options
    (c c0 c1 c2 : Conn) s1 h1 r1 s2 h2 r2 :
  let timeout := opt_timeout options in
  send_request request timeout c = (Ok tt, c0) ->
  _receive_event timeout c0
  = (Ok (h11.Ev (h11.InformationalResponse s1 h1 r1)), c1) ->
  _receive_event timeout c1
  = (Ok (h11.Ev (h11.InformationalResponse s2 h2 r2)), c2) ->
  send fuel request options c = (Raise AssertionError, c2).
Proof.
  intros timeout E0 E1 E2. rewrite run_send. cbv zeta. fold timeout.
  rewrite E0, (receive_response_skips_one timeout c0 c1 s1 h1 r1 E1), E2.
  reflexivity.
Qed.

(** ** The facade *)

(** C9: on an unconnected facade [close()] returns without touching the
    facade or the log; with a driver bound, it is that driver's [close()],
    run on the bound driver object, the rest of the facade being left as it
    was (the multiplexed driver is looked at first). *)
Theorem HTTPConnection_close_delegates (w : Facade) :
  (h2_connection (self w) = None -> h11_connection (self w) = None ->
   HTTPConnection_close w = (Ok tt, w))
  /\ (forall d, h2_connection (self w) = Some d ->
      HTTPConnection_close w =
      let (r, c) := HTTP2Connection_close (mkWorld d (log w)) in
      (r, mkWorld (with_h2_connection (Some (self c)) (self w)) (log c)))
  /\ (forall d, h2_connection (self w) = None ->
      h11_connection (self w) = Some d ->
      HTTPConnection_close w =
      let (r, c) := close (mkWorld d (log w)) in
      (r, mkWorld (with_h11_connection (Some (self c)) (self w)) (log c))).
Proof.
  unfold HTTPConnection_close, bind, gets; simpl.
  repeat split.
  - intros E2 E1. rewrite E2, E1. destruct w; reflexivity.
  - intros d E2. rewrite E2. reflexivity.
  - intros d E2 E1. rewrite E2, E1. reflexivity.
Qed.

(** C2, as amended: on an unconnected facade [is_closed] fails its
    assertion and returns nothing; with a driver bound it returns that
    driver's check, which for the HTTP/1.1 driver is that the local role is
    in [CLOSED] or [ERROR]. *)
Theorem HTTPConnection_is_closed_spec (c : HTTPConnection) :
  (h2_connection c = None -> h11_connection c = None ->
   HTTPConnection_is_closed c = Raise AssertionError)
  /\ (forall d, h2_connection c = Some d ->
      HTTPConnection_is_closed c = Ok (HTTP2Connection_is_closed d))
  /\ (forall d, h2_connection c = None -> h11_connection c = Some d ->
      HTTPConnection_is_closed c = Ok (HTTP11Connection_is_closed d)
      /\ (HTTP11Connection_is_closed d = true <->
          h11.our_state (h11_state d) = h11.CLOSED
          \/ h11.our_state (h11_state d) = h11.ERROR)).
Proof.
  unfold HTTPConnection_is_closed.
  split; [| split].
  - intros E2 E1. rewrite E2, E1. reflexivity.
  - intros d E2. rewrite E2. reflexivity.
  - intros d E2 E1. split.
    + rewrite E2, E1. reflexivity.
    + unfold HTTP11Connection_is_closed.
      split.
      * destruct (h11.our_state (h11_state d)); simpl; intros; auto;
          discriminate.
      * intros [E | E]; rewrite E; reflexivity.
Qed.

(** ** [close] and [response_closed] *)

Context {HL : h11.Lawful H}.

(** C6: [close()] returns normally also when the state machine rejects the
    closing event with a protocol error; in either case the transport is
    closed; and a second [close()] returns normally and leaves the driver
    as the first one left it. *)
Theorem close_best_effort_idempotent (c : Conn) :
  let c1 := snd (close c) in
  (forall e, fst (h11.send (h11_state (self c)) h11.ConnectionClosed) = inl e ->
   fst (close c) = Ok tt)
  /\ fst (close c) = Ok tt
  /\ writer_closed (writer (self c1)) = true
  /\ log c1 = log c ++ [h11_send h11.ConnectionClosed; writer_close]
  /\ fst (close c1) = Ok tt
  /\ self (snd (close c1)) = self c1.
Proof.
  intros c1. subst c1. rewrite (run_close c). simpl.
  repeat split; rewrite run_close; simpl; trivial.
  rewrite (h11.closed_twice (h11_state (self c))). reflexivity.
Qed.

(** [response_closed], run on a state. *)
Lemma run_response_closed (c : Conn) :
  response_closed c =
  if is_DONE (h11.our_state (h11_state (self c)))
     && is_DONE (h11.their_state (h11_state (self c)))
  then
    (Ok tt,
     mkWorld (mkHTTP11Connection (reader (self c)) (writer (self c))
                (on_release (self c))
                (snd (h11.start_next_cycle (h11_state (self c)))))
       (log c ++ [h11_start_next_cycle] ++ hook_calls c))
  else
    (Ok tt,
     mkWorld (self (snd (close c)))
       (log c ++ [h11_send h11.ConnectionClosed; writer_close]
        ++ hook_calls c)).
Proof.
  assert (Hook : forall c1 : Conn,
             on_release (self c1) = on_release (self c) ->
             (hook <- gets (fun c : Conn => on_release (self c)) ;;
              match hook with
              | Some f => emit (release f)
              | None => ret tt
              end) c1 = (Ok tt, mkWorld (self c1) (log c1 ++ hook_calls c))).
  { intros c1 E. unfold bind, gets, hook_calls. rewrite E.
    destruct (on_release (self c)); simpl.
    - reflexivity.
    - unfold ret. rewrite app_nil_r. destruct c1; reflexivity. }
  unfold response_closed.
  unfold bind at 1. unfold gets at 1.
  unfold bind at 1. unfold gets at 1.
  destruct (is_DONE (h11.our_state (h11_state (self c)))) eqn:Eo;
    [destruct (is_DONE (h11.their_state (h11_state (self c)))) eqn:Et |];
    cbn [andb].
  - assert (Eo' : h11.our_state (h11_state (self c)) = h11.DONE)
      by (destruct (h11.our_state _); trivial; discriminate).
    assert (Et' : h11.their_state (h11_state (self c)) = h11.DONE)
      by (destruct (h11.their_state _); trivial; discriminate).
    destruct (h11.cycle_from_done (h11_state (self c)) Eo' Et')
      as (s' & Ecycle & _).
    unfold bind at 1. rewrite run_h11_state_start_next_cycle, Ecycle.
    rewrite Hook by reflexivity. simpl. rewrite <- app_assoc. reflexivity.
  - unfold bind at 1. rewrite (run_close c).
    rewrite Hook by reflexivity. simpl. rewrite <- app_assoc. reflexivity.
  - unfold bind at 1. rewrite (run_close c).
    rewrite Hook by reflexivity. simpl. rewrite <- app_assoc. reflexivity.
Qed.

(** C3: when both roles are in [DONE], [response_closed] calls
    [start_next_cycle], which succeeds and leaves both in [IDLE]; otherwise
    it calls [close()].  Either way it returns normally, and what it adds
    to the log is that call followed by the release hook, once, when one
    was supplied. *)
Theorem response_closed_reuses_or_closes (c : Conn) :
  let ours := h11.our_state (h11_state (self c)) in
  let theirs := h11.their_state (h11_state (self c)) in
  (ours = h11.DONE -> theirs = h11.DONE ->
   exists s',
     h11.start_next_cycle (h11_state (self c)) = (inr tt, s')
     /\ h11.our_state s' = h11.IDLE /\ h11.their_state s' = h11.IDLE
     /\ response_closed c =
        (Ok tt,
         mkWorld (mkHTTP11Connection (reader (self c)) (writer (self c))
                    (on_release (self c)) s')
           (log c ++ [h11_start_next_cycle] ++ hook_calls c)))
  /\ (~ (ours = h11.DONE /\ theirs = h11.DONE) ->
      response_closed c =
      (Ok tt, mkWorld (self (snd (close c)))
                (log c ++ [h11_send h11.ConnectionClosed; writer_close]
                 ++ hook_calls c))).
Proof.
  intros ours theirs. rewrite run_response_closed. fold ours theirs. split.
  - intros Eo Et.
    destruct (h11.cycle_from_done (h11_state (self c)) Eo Et)
      as (s' & Ecycle & Io & It).
    exists s'. rewrite Eo, Et, Ecycle. auto.
  - intros Hn.
    destruct ours, theirs; try reflexivity.
    exfalso. apply Hn. split; reflexivity.
Qed.

(** ** [send] *)

(** Outside [IDLE] the state machine rejects the request-start event, and
    [send] stops there. *)
Lemma send_refused_unless_idle (fuel : nat) (request : Request)
    (options : Options SSLConfig TimeoutConfig) (c : Conn) :
  h11.our_state (h11_state (self c)) <> h11.IDLE ->
  let event := h11.Request (encode (req_method request))
                 (req_full_path request) (req_headers request) in
  send fuel request options c =
  (Raise (H11ProtocolError h11.LocalProtocolError),
   mkWorld (mkHTTP11Connection (reader (self c)) (writer (self c))
              (on_release (self c))
              (snd (h11.send (h11_state (self c)) event)))
     (log c ++ [h11_send event])).
Proof.
  intros N event. subst event.
  unfold send, send_request, _send_event.
  unfold bind at 1. unfold bind at 1. unfold bind at 1.
  rewrite run_h11_state_send.
  rewrite h11.request_needs_idle by exact N.
  reflexivity.
Qed.

(** C4: a driver whose local role is in [MUST_CLOSE] refuses the next
    request: [send] raises the protocol error of the state machine at its
    first step, before anything is written to or read from the transport.
    (By [send_refused_unless_idle] the same holds in [CLOSED] and [ERROR],
    where [close()] leaves the driver.) *)
Theorem send_in_must_close_fails (fuel : nat) (request : Request)
    (options : Options SSLConfig TimeoutConfig) (c : Conn) :
  h11.our_state (h11_state (self c)) = h11.MUST_CLOSE ->
  let event := h11.Request (encode (req_method request))
                 (req_full_path request) (req_headers request) in
  send fuel request options c =
  (Raise (H11ProtocolError h11.LocalProtocolError),
   mkWorld (mkHTTP11Connection (reader (self c)) (writer (self c))
              (on_release (self c))
              (snd (h11.send (h11_state (self c)) event)))
     (log c ++ [h11_send event])).
Proof.
  intros E. apply send_refused_unless_idle. rewrite E. discriminate.
Qed.

Lemma run_send_after_head fuel request options (c : Conn) st hd rs c1 :
  final_response_arrived request options c st hd rs c1 ->
  send fuel request options c =
  let timeout := opt_timeout options in
  let response :=
    Response_init st (decode_latin1 rs) "HTTP/1.1" hd
      (_body_iter timeout) (Some response_closed) in
  if opt_stream options then (Ok response, c1)
  else
    match drain fuel (_body_iter timeout) [] c1 with
    | (Ok b, c2) =>
        (Ok (set_content b (set_is_closed response)), snd (response_closed c2))
    | (Raise e, c2) => (Raise e, snd (response_closed c2))
    | (Diverges, c2) => (Diverges, c2)
    end.
Proof.
  unfold final_response_arrived, bind. intros Hhead.
  rewrite run_send. cbv zeta.
  destruct (send_request request (opt_timeout options) c) as [[[] | e |] c0];
    try discriminate.
  rewrite Hhead.
  destruct (opt_stream options); trivial.
  destruct (drain fuel _ [] c1) as [[b | e |] c2]; trivial;
    rewrite run_response_closed;
    destruct (is_DONE _ && is_DONE _); reflexivity.
Qed.

(** C5: once the final response has arrived, a streamed [send] returns it
    at once: unread, not closed, the driver left where the response head
    put it.  A buffered [send] pulls the body first.  If the pulls reach
    the end of the message, it returns the response with all the payloads
    as its content, closed, [response_closed] having run; if a pull raises,
    [send] raises that same exception, [response_closed] having run as
    well.  ([send] has no outcome only when the body has more chunks than
    the fuel allows.) *)
Theorem send_buffered_or_streamed fuel request options (c c1 : Conn) st hd rs :
  final_response_arrived request options c st hd rs c1 ->
  let timeout := opt_timeout options in
  let response :=
    Response_init st (decode_latin1 rs) "HTTP/1.1" hd
      (_body_iter timeout) (Some response_closed) in
  (opt_stream options = true ->
   send fuel request options c = (Ok response, c1)
   /\ content response = None /\ is_closed response = false)
  /\ (opt_stream options = false ->
      match drain fuel (_body_iter timeout) [] c1 with
      | (Ok b, c2) =>
          exists response',
            send fuel request options c
            = (Ok response', snd (response_closed c2))
            /\ fst (response_closed c2) = Ok tt
            /\ is_closed response' = true
            /\ content response' = Some b
            /\ status_code response' = st /\ headers response' = hd
            /\ exists new chunks,
                 log c2 = log c1 ++ new
                 /\ answers new
                    = map (fun d => h11.Ev (h11.Data d)) chunks
                      ++ [h11.Ev h11.EndOfMessage]
                 /\ b = List.concat chunks
      | (Raise e, c2) =>
          send fuel request options c = (Raise e, snd (response_closed c2))
          /\ fst (response_closed c2) = Ok tt
      | (Diverges, c2) =>
          send fuel request options c = (Diverges, c2)
          /\ exists new chunks,
               log c2 = log c1 ++ new
               /\ answers new = map (fun d => h11.Ev (h11.Data d)) chunks
               /\ List.length chunks = fuel
      end).
Proof.
  intros Hhead timeout response.
  rewrite (run_send_after_head fuel request options c st hd rs c1 Hhead).
  cbv zeta. fold timeout. fold response.
  split; intros Es; rewrite Es.
  - auto.
  - pose proof (drain_log fuel timeout [] c1) as D.
    destruct (drain fuel (_body_iter timeout) [] c1) as [[b | e |] c2];
      trivial.
    + exists (set_content b (set_is_closed response)).
      repeat (split; trivial).
      rewrite run_response_closed. destruct (_ && _); reflexivity.
    + split; trivial.
      rewrite run_response_closed. destruct (_ && _); reflexivity.
    + split; trivial.
Qed.

Lemma filter_not_release (l : list Action) :
  forallb not_release l = true -> filter is_release l = [].
Proof.
  induction l as [| a l IH]; cbn; trivial.
  intros E. apply andb_prop in E as [E1 E2].
  unfold not_release in E1. destruct (is_release a); [discriminate | auto].
Qed.

(** C10: when a pull of a buffered [send] raises, [response_closed] still
    runs before [send] raises that exception: the state machine is either
    cycled back to [IDLE]/[IDLE] or closed together with the transport,
    and of all that [send] added to the log, the release hook is the last
    entry and occurs once (when a hook was supplied). *)
Theorem buffered_read_error_still_closes fuel request options
    (c c1 c2 : Conn) st hd rs e :
  let timeout := opt_timeout options in
  opt_stream options = false ->
  final_response_arrived request options c st hd rs c1 ->
  drain fuel (_body_iter timeout) [] c1 = (Raise e, c2) ->
  exists c3 closing,
    response_closed c2 = (Ok tt, c3)
    /\ send fuel request options c = (Raise e, c3)
    /\ log c3 = log c2 ++ closing ++ hook_calls c
    /\ (closing = [h11_start_next_cycle]
         /\ h11.our_state (h11_state (self c3)) = h11.IDLE
         /\ h11.their_state (h11_state (self c3)) = h11.IDLE
        \/ closing = [h11_send h11.ConnectionClosed; writer_close]
           /\ writer_closed (writer (self c3)) = true
           /\ HTTP11Connection_is_closed (self c3) = true)
    /\ exists new,
         log c3 = log c ++ new /\ filter is_release new = hook_calls c.
Proof.
  intros timeout Es Hhead Hdrain.
  (* nothing before [response_closed] touches the hook *)
  assert (G : grows not_release c c2).
  { assert (Hr : forall a, is_receiving a = true -> not_release a = true)
      by (intros []; cbn; trivial; discriminate).
    unfold final_response_arrived, bind in Hhead.
    pose proof (quiet_send_request not_release request timeout
                  (fun _ => eq_refl) (fun _ => eq_refl) c) as G0.
    fold timeout in Hhead.
    destruct (send_request request timeout c) as [[[] | x |] c0];
      try discriminate.
    pose proof (quiet_receive_response not_release Hr timeout c0) as G1.
    rewrite Hhead in G1.
    pose proof (quiet_drain not_release fuel (_body_iter timeout) []
                  (quiet__body_iter not_release Hr timeout) c1) as G2.
    rewrite Hdrain in G2. cbn [snd] in *.
    eauto using grows_trans. }
  destruct G as (Ehook & new & Enew & Hnew).
  assert (Ecalls : hook_calls c2 = hook_calls c)
    by (unfold hook_calls; rewrite Ehook; reflexivity).
  rewrite (run_send_after_head fuel request options c st hd rs c1 Hhead).
  cbv zeta. fold timeout. rewrite Es, Hdrain.
  rewrite run_response_closed. rewrite Ecalls.
  assert (Hfilter : forall closing,
             forallb not_release closing = true ->
             filter is_release (new ++ closing ++ hook_calls c) = hook_calls c).
  { intros closing Hc. rewrite !filter_app, !filter_not_release by trivial.
    unfold hook_calls. destruct (on_release (self c)); reflexivity. }
  destruct (is_DONE (h11.our_state (h11_state (self c2)))) eqn:Eo;
    [destruct (is_DONE (h11.their_state (h11_state (self c2)))) eqn:Et |];
    cbn [andb].
  - assert (Eo' : h11.our_state (h11_state (self c2)) = h11.DONE)
      by (destruct (h11.our_state _); trivial; discriminate).
    assert (Et' : h11.their_state (h11_state (self c2)) = h11.DONE)
      by (destruct (h11.their_state _); trivial; discriminate).
    destruct (h11.cycle_from_done (h11_state (self c2)) Eo' Et')
      as (s' & Ecycle & Io & It).
    eexists. exists [h11_start_next_cycle].
    split; [reflexivity |]. split; [reflexivity |]. split; [reflexivity |].
    cbn [self h11_state log snd]. rewrite Ecycle. split; [auto |].
    exists (new ++ [h11_start_next_cycle] ++ hook_calls c).
    split; [rewrite Enew, <- app_assoc; reflexivity | auto].
  - eexists. exists [h11_send h11.ConnectionClosed; writer_close].
    split; [reflexivity |]. split; [reflexivity |]. split; [reflexivity |].
    cbn [self h11_state log snd]. rewrite run_close. cbn [self snd writer].
    split.
    + right. split; [reflexivity |]. split; [reflexivity |].
      unfold HTTP11Connection_is_closed. cbn [h11_state].
      destruct (h11.closed_is_terminal (h11_state (self c2))) as [E | E];
        rewrite E; reflexivity.
    + exists (new ++ [h11_send h11.ConnectionClosed; writer_close]
              ++ hook_calls c).
      split; [rewrite Enew, <- app_assoc; reflexivity | auto].
  - eexists. exists [h11_send h11.ConnectionClosed; writer_close].
    split; [reflexivity |]. split; [reflexivity |]. split; [reflexivity |].
    cbn [self h11_state log snd]. rewrite run_close. cbn [self snd writer].
    split.
    + right. split; [reflexivity |]. split; [reflexivity |].
      unfold HTTP11Connection_is_closed. cbn [h11_state].
      destruct (h11.closed_is_terminal (h11_state (self c2))) as [E | E];
        rewrite E; reflexivity.
    + exists (new ++ [h11_send h11.ConnectionClosed; writer_close]
              ++ hook_calls c).
      split; [rewrite Enew, <- app_assoc; reflexivity | auto].
Qed.

End Properties.

(* ------------------------------------------------------------------ *)
(** * The reference machine obeys the laws *)

Lemma Sim_send_closed_terminal (m : Sim.Machine) :
  let m1 := snd (Sim.send m h11.ConnectionClosed) in
  (Sim.client m1 = h11.CLOSED \/ Sim.client m1 = h11.ERROR)
  /\ snd (Sim.send m1 h11.ConnectionClosed) = m1.
Proof.
  destruct m as [c s ka buf bc rem].
  destruct c, s, ka; cbn; auto.
Qed.

#[global] Instance Sim_lawful : h11.Lawful Sim.Machine.
Proof.
  constructor.
  - intros [c s ka buf bc rem] m t h Hc. cbn in *.
    destruct c; try reflexivity. contradiction.
  - intros [c s ka buf bc rem] Ec Es. cbn in *. subst.
    eexists. split; [reflexivity |]. auto.
  - intros m. apply (Sim_send_closed_terminal m).
  - intros m. apply (Sim_send_closed_terminal m).
Qed.

(** ** On the reference machine a drain always returns

    Every [Data] event takes at least one byte off the declared length, so
    a drain given more fuel than that length never runs out of it. *)

Section SimDrain.

Context {P : Package}.

Local Abbreviation Conn := (Conn (H := Sim.Machine)).
Local Abbreviation expected := Run.expected.

Lemma Sim_fire_remaining (m : Sim.Machine) :
  Sim.remaining (Sim.fire_state_triggered m) = Sim.remaining m.
Proof. destruct m as [c s [] buf bc rem]; destruct c, s; reflexivity. Qed.

Lemma Sim_process_server_event_remaining (m m' : Sim.Machine) e :
  Sim.process_server_event m e = Some m' ->
  Sim.remaining m' = Sim.remaining m.
Proof.
  unfold Sim.process_server_event, Sim.disable_keep_alive_unless.
  destruct (Sim.server_transition (Sim.server m) e); [| discriminate].
  intros E. injection E as <-.
  destruct (Sim.event_keeps_alive e); rewrite ?Sim_fire_remaining;
    cbn; rewrite ?Sim_fire_remaining; reflexivity.
Qed.

Lemma Sim_extract_progress (m : Sim.Machine) :
  match Sim.extract_next_receive_event m with
  | inr (h11.Ev (h11.Data _), m') => Sim.remaining m' < Sim.remaining m
  | inr (h11.NEED_DATA, m') => m' = m
  | _ => True
  end.
Proof.
  destruct m as [c s ka buf bc rem].
  unfold Sim.extract_next_receive_event, Sim.read_event.
  cbn [Sim.server Sim.receive_buffer Sim.remaining Sim.receive_buffer_closed].
  destruct s.
  - destruct buf as [| b [| n rest]]; [destruct bc; trivial | |];
      destruct b; trivial.
  - destruct buf as [| b [| n rest]]; [destruct bc; trivial | |];
      destruct b; trivial.
  - destruct rem as [| rem]; [destruct buf; trivial |].
    destruct buf as [| b rest]; [destruct bc; trivial |].
    cbn. lia.
  - destruct buf; [destruct bc |]; trivial.
  - destruct buf; [destruct bc |]; trivial.
  - destruct buf; [destruct bc |]; trivial.
  - destruct buf; [destruct bc |]; trivial.
  - destruct buf; [destruct bc |]; trivial.
  - destruct buf; [destruct bc |]; trivial.
Qed.

Lemma Sim_next_event_progress (m : Sim.Machine) :
  match Sim.next_event m with
  | (inr (h11.Ev (h11.Data _)), m') => Sim.remaining m' < Sim.remaining m
  | (inr h11.NEED_DATA, m') => m' = m
  | _ => True
  end.
Proof.
  unfold Sim.next_event.
  destruct (h11.State_eqb (Sim.server m) h11.ERROR); trivial.
  pose proof (Sim_extract_progress m) as Pr.
  destruct (Sim.extract_next_receive_event m) as [[] | [[e | |] m1]]; trivial.
  - destruct (Sim.process_server_event m1 e) as [m2 |] eqn:E; trivial.
    apply Sim_process_server_event_remaining in E.
    destruct e; trivial. rewrite E. exact Pr.
  - destruct (Sim.receive_buffer_closed m1); trivial.
Qed.

Lemma Sim_receive_data_remaining (m : Sim.Machine) (d : bytes) :
  Sim.remaining (Sim.receive_data m d) = Sim.remaining m.
Proof. destruct d; reflexivity. Qed.

Lemma Sim_receive_event_while_progress n timeout (c c' : Conn) d :
  _receive_event_while n h11.NEED_DATA timeout c
  = (Ok (h11.Ev (h11.Data d)), c') ->
  expected c' < expected c.
Proof.
  revert c. induction n as [| n IH]; intros c E.
  - discriminate E.
  - rewrite _receive_event_while_step in E.
    destruct (Reader_read (reader (self c))) as [[data | e |] rd];
      try discriminate E.
    cbv zeta in E. rewrite run_h11_state_next_event in E.
    cbn [self h11_state log] in E.
    pose proof (Sim_next_event_progress
                  (Sim.receive_data (h11_state (self c)) data)) as Pr.
    change (h11.next_event (h11.receive_data (h11_state (self c)) data))
      with (Sim.next_event (Sim.receive_data (h11_state (self c)) data)) in E.
    destruct (Sim.next_event _) as [[x | [[] | |]] m'];
      try discriminate E;
      try (rewrite _receive_event_while_done in E by reflexivity;
           discriminate E).
    + rewrite _receive_event_while_done in E by reflexivity.
      injection E as _ <-. unfold expected. cbn.
      rewrite Sim_receive_data_remaining in Pr. exact Pr.
    + apply IH in E. subst m'. unfold expected in *. cbn in E.
      rewrite Sim_receive_data_remaining in E. exact E.
Qed.

Lemma Sim_body_iter_progress timeout (c c' : Conn) d :
  _body_iter timeout c = (Ok (Some d), c') -> expected c' < expected c.
Proof.
  unfold _body_iter, bind. rewrite run__receive_event.
  pose proof (Sim_next_event_progress (h11_state (self c))) as Pr.
  change (h11.next_event (h11_state (self c)))
    with (Sim.next_event (h11_state (self c))).
  destruct (Sim.next_event _) as [[x | ne] m']; [discriminate |].
  destruct (is_NEED_DATA ne) eqn:En.
  - destruct ne; try discriminate En. subst m'.
    destruct (_receive_event_while _ h11.NEED_DATA timeout _)
      as [[[[] | |] | e |] c1] eqn:E; try discriminate.
    intros E'. injection E' as <- <-.
    apply Sim_receive_event_while_progress in E. exact E.
  - rewrite _receive_event_while_done by exact En.
    destruct ne as [[] | |]; try discriminate.
    intros E'. injection E' as _ <-. exact Pr.
Qed.

(** With more fuel than the length still expected, a drain returns. *)
Lemma Sim_drain_returns fuel timeout acc (c : Conn) :
  expected c < fuel ->
  fst (drain fuel (_body_iter timeout) acc c) <> Diverges.
Proof.
  revert acc c. induction fuel as [| fuel IH]; intros acc c Hlt.
  - inversion Hlt.
  - cbn [drain]. unfold bind.
    pose proof (Sim_body_iter_progress timeout c) as Pr.
    pose proof (_body_iter_returns timeout c) as T.
    destruct (_body_iter timeout c) as [[[d |] | e |] c1]; cbn [fst] in *;
      try discriminate; try contradiction.
    apply IH. specialize (Pr c1 d eq_refl). lia.
Qed.

End SimDrain.

(* ------------------------------------------------------------------ *)
(** * The properties on concrete runs *)

(** C2 as stated fails: on an unconnected facade [is_closed] does not
    return true, it fails the assertion. *)
Lemma is_closed_unconnected_is_not_true :
  HTTPConnection_is_closed (self Run.unconnected) <> Ok true.
Proof. vm_compute. discriminate. Qed.

Lemma HTTPConnection_is_closed_spec_witness :
  (h2_connection (self Run.unconnected) = None
   /\ h11_connection (self Run.unconnected) = None
   /\ HTTPConnection_is_closed (self Run.unconnected) = Raise AssertionError)
  /\ (h2_connection (self Run.bound_h11) = None
      /\ h11_connection (self Run.bound_h11) = Some (self Run.exchange_done)
      /\ HTTPConnection_is_closed (self Run.bound_h11) = Ok false).
Proof.
  split.
  - split; [reflexivity |]. split; [reflexivity |].
    apply (proj1 (HTTPConnection_is_closed_spec (self Run.unconnected)));
      reflexivity.
  - split; [reflexivity |]. split; [reflexivity |].
    rewrite (proj1 (proj2 (proj2 (HTTPConnection_is_closed_spec
                                    (self Run.bound_h11)))
                     (self Run.exchange_done) eq_refl eq_refl)).
    reflexivity.
Defined.

Lemma HTTPConnection_close_delegates_witness :
  (h2_connection (self Run.unconnected) = None
   /\ h11_connection (self Run.unconnected) = None
   /\ HTTPConnection_close Run.unconnected = (Ok tt, Run.unconnected))
  /\ (h2_connection (self Run.bound_h11) = None
      /\ h11_connection (self Run.bound_h11) = Some (self Run.exchange_done)
      /\ fst (HTTPConnection_close Run.bound_h11) = Ok tt
      /\ log (snd (HTTPConnection_close Run.bound_h11))
         = [h11_send h11.ConnectionClosed; writer_close]).
Proof.
  split.
  - split; [reflexivity |]. split; [reflexivity |].
    apply (proj1 (HTTPConnection_close_delegates Run.unconnected));
      reflexivity.
  - split; [reflexivity |]. split; [reflexivity |].
    rewrite (proj2 (proj2 (HTTPConnection_close_delegates Run.bound_h11))
               (self Run.exchange_done) eq_refl eq_refl).
    split; reflexivity.
Defined.

Lemma close_best_effort_idempotent_witness :
  fst (h11.send (h11_state (self Run.mid_request)) h11.ConnectionClosed)
  = inl h11.LocalProtocolError
  /\ fst (close Run.mid_request) = Ok tt
  /\ writer_closed (writer (self (snd (close Run.mid_request)))) = true
  /\ self (snd (close (snd (close Run.mid_request))))
     = self (snd (close Run.mid_request)).
Proof.
  pose proof (close_best_effort_idempotent Run.mid_request) as T.
  cbv zeta in T. destruct T as (T1 & _ & T3 & _ & _ & T6).
  split; [reflexivity |].
  split; [apply (T1 h11.LocalProtocolError); reflexivity |].
  split; [exact T3 | exact T6].
Defined.

Lemma response_closed_reuses_or_closes_witness :
  (h11.our_state (h11_state (self Run.exchange_done)) = h11.DONE
   /\ h11.their_state (h11_state (self Run.exchange_done)) = h11.DONE
   /\ exists s',
        h11.our_state s' = h11.IDLE /\ h11.their_state s' = h11.IDLE
        /\ response_closed Run.exchange_done
           = (Ok tt,
              mkWorld (mkHTTP11Connection (mkReader []) (mkWriter [] [] false)
                         Run.pool s')
                [h11_start_next_cycle; release "release_connection"%string]))
  /\ (~ (h11.our_state (h11_state (self Run.mid_request)) = h11.DONE
         /\ h11.their_state (h11_state (self Run.mid_request)) = h11.DONE)
      /\ log (snd (response_closed Run.mid_request))
         = [h11_send h11.ConnectionClosed; writer_close;
            release "release_connection"%string]).
Proof.
  split.
  - assert (Eo : h11.our_state (h11_state (self Run.exchange_done)) = h11.DONE)
      by reflexivity.
    assert (Et : h11.their_state (h11_state (self Run.exchange_done))
                 = h11.DONE) by reflexivity.
    split; [exact Eo |]. split; [exact Et |].
    destruct (proj1 (response_closed_reuses_or_closes Run.exchange_done)
                Eo Et) as (s' & _ & Io & It & E).
    exists s'. auto.
  - assert (N : ~ (h11.our_state (h11_state (self Run.mid_request)) = h11.DONE
                   /\ h11.their_state (h11_state (self Run.mid_request))
                      = h11.DONE))
      by (intros [E _]; discriminate E).
    split; [exact N |].
    rewrite (proj2 (response_closed_reuses_or_closes Run.mid_request) N).
    reflexivity.
Defined.

Lemma send_in_must_close_fails_witness :
  h11.our_state (h11_state (self Run.must_close)) = h11.MUST_CLOSE
  /\ fst (send 8 Run.GET Run.buffered Run.must_close)
     = Raise (H11ProtocolError h11.LocalProtocolError)
  /\ writer (self (snd (send 8 Run.GET Run.buffered Run.must_close)))
     = writer (self Run.must_close).
Proof.
  assert (E : h11.our_state (h11_state (self Run.must_close)) = h11.MUST_CLOSE)
    by reflexivity.
  split; [exact E |].
  rewrite (send_in_must_close_fails 8 Run.GET Run.buffered Run.must_close E).
  split; reflexivity.
Defined.


Lemma send_fails_on_second_interim_response_witness :
  send_request Run.GET None (Run.fresh Run.two_interim_then_ok Run.pool)
  = (Ok tt, Run.request_sent Run.two_interim_then_ok)
  /\ _receive_event None (Run.request_sent Run.two_interim_then_ok)
     = (Ok (h11.Ev (h11.InformationalResponse 100 [] (encode "Continue"))),
        Run.events_received 1 (Run.request_sent Run.two_interim_then_ok))
  /\ _receive_event None
       (Run.events_received 1 (Run.request_sent Run.two_interim_then_ok))
     = (Ok (h11.Ev (h11.InformationalResponse 100 [] (encode "Continue"))),
        Run.events_received 2 (Run.request_sent Run.two_interim_then_ok))
  /\ fst (send 8 Run.GET Run.buffered
            (Run.fresh Run.two_interim_then_ok Run.pool))
     = Raise AssertionError
  /\ arrivals (reader (self (snd (send 8 Run.GET Run.buffered
                   (Run.fresh Run.two_interim_then_ok Run.pool)))))
     = [Some ([Byte.x32; Byte.x05] ++ encode "hello")].
Proof.
  assert (E0 : send_request Run.GET None
                 (Run.fresh Run.two_interim_then_ok Run.pool)
               = (Ok tt, Run.request_sent Run.two_interim_then_ok))
    by (vm_compute; reflexivity).
  assert (E1 : _receive_event None (Run.request_sent Run.two_interim_then_ok)
               = (Ok (h11.Ev (h11.InformationalResponse 100 []
                                (encode "Continue"))),
                  Run.events_received 1
                    (Run.request_sent Run.two_interim_then_ok)))
    by (vm_compute; reflexivity).
  assert (E2 : _receive_event None
                 (Run.events_received 1
                    (Run.request_sent Run.two_interim_then_ok))
               = (Ok (h11.Ev (h11.InformationalResponse 100 []
                                (encode "Continue"))),
                  Run.events_received 2
                    (Run.request_sent Run.two_interim_then_ok)))
    by (vm_compute; reflexivity).
  split; [exact E0 |]. split; [exact E1 |]. split; [exact E2 |].
  rewrite (send_fails_on_second_interim_response 8 Run.GET Run.buffered
             _ _ _ _ _ _ _ _ _ _ E0 E1 E2).
  split; vm_compute; reflexivity.
Defined.

Lemma send_buffered_or_streamed_witness :
  final_response_arrived Run.GET Run.buffered (Run.fresh Run.ok_hello Run.pool)
    200 [] (encode "OK") (Run.head_received Run.ok_hello)
  /\ (opt_stream Run.streaming = true
      /\ fst (send 8 Run.GET Run.streaming (Run.fresh Run.ok_hello Run.pool))
         = Ok (Response_init 200 "OK" "HTTP/1.1" [] (_body_iter None)
                 (Some response_closed))
      /\ snd (send 8 Run.GET Run.streaming (Run.fresh Run.ok_hello Run.pool))
         = Run.head_received Run.ok_hello)
  /\ (opt_stream Run.buffered = false
      /\ exists response',
           fst (send 8 Run.GET Run.buffered (Run.fresh Run.ok_hello Run.pool))
           = Ok response'
           /\ is_closed response' = true
           /\ content response' = Some (encode "hello")).
Proof.
  assert (Hh : final_response_arrived Run.GET Run.buffered
                 (Run.fresh Run.ok_hello Run.pool) 200 [] (encode "OK")
                 (Run.head_received Run.ok_hello))
    by (vm_compute; reflexivity).
  split; [exact Hh |]. split.
  - split; [reflexivity |].
    destruct (proj1 (send_buffered_or_streamed 8 Run.GET Run.streaming
                       _ _ _ _ _ Hh) eq_refl) as (E & _).
    rewrite E. split; reflexivity.
  - split; [reflexivity |].
    pose proof (proj2 (send_buffered_or_streamed 8 Run.GET Run.buffered
                         _ _ _ _ _ Hh) eq_refl) as T.
    cbv zeta in T.
    destruct (drain 8 (_body_iter (opt_timeout Run.buffered)) []
                (Run.head_received Run.ok_hello)) as [[b | e |] c2] eqn:D;
      vm_compute in D; try discriminate D.
    destruct T as (response' & E & _ & Hc & Hb & _).
    exists response'. rewrite E. split; [reflexivity |].
    split; [exact Hc |]. rewrite Hb. injection D as <- _. reflexivity.
Defined.

Lemma buffered_read_error_still_closes_witness :
  opt_stream Run.buffered = false
  /\ final_response_arrived Run.GET Run.buffered
       (Run.fresh Run.body_times_out Run.pool) 200 [] (encode "OK")
       (Run.head_received Run.body_times_out)
  /\ drain 8 (_body_iter None) [] (Run.head_received Run.body_times_out)
     = (Raise ReadTimeout, Run.body_pulled Run.body_times_out)
  /\ exists c3,
       send 8 Run.GET Run.buffered (Run.fresh Run.body_times_out Run.pool)
       = (Raise ReadTimeout, c3)
       /\ HTTP11Connection_is_closed (self c3) = true
       /\ exists new,
            log c3 = log (Run.fresh Run.body_times_out Run.pool) ++ new
            /\ filter is_release new = [release "release_connection"%string].
Proof.
  assert (Hh : final_response_arrived Run.GET Run.buffered
                 (Run.fresh Run.body_times_out Run.pool) 200 [] (encode "OK")
                 (Run.head_received Run.body_times_out))
    by (vm_compute; reflexivity).
  assert (D : drain 8 (_body_iter None) []
                (Run.head_received Run.body_times_out)
              = (Raise ReadTimeout, Run.body_pulled Run.body_times_out))
    by (vm_compute; reflexivity).
  split; [reflexivity |]. split; [exact Hh |]. split; [exact D |].
  destruct (buffered_read_error_still_closes 8 Run.GET Run.buffered
              (Run.fresh Run.body_times_out Run.pool)
              (Run.head_received Run.body_times_out)
              (Run.body_pulled Run.body_times_out)
              200 [] (encode "OK") ReadTimeout eq_refl Hh D)
    as (c3 & closing & Hrc & Hsend & _ & Hclosing & new & Hl & Hf).
  exists c3. split; [exact Hsend |]. split.
  - destruct Hclosing as [(_ & Io & _) | (_ & _ & Hc)]; [| exact Hc].
    exfalso. rewrite run_response_closed in Hrc. vm_compute in Hrc.
    injection Hrc as <-. discriminate Io.
  - exists new. split; [exact Hl | exact Hf].
Defined.

(** ** Sample runs *)

(** [GET /] answered by [200 OK] with the five bytes [hello]: the buffered
    response carries them, the connection is back in [IDLE]/[IDLE] and
    open, the hook was called once. *)
Example keep_alive_exchange :
  let (r, c) := send 8 Run.GET Run.buffered (Run.fresh Run.ok_hello Run.pool) in
  match r with
  | Ok response =>
      status_code response = 200%Z
      /\ content response = Some (encode "hello")
      /\ is_closed response = true
  | _ => False
  end
  /\ h11.our_state (h11_state (self c)) = h11.IDLE
  /\ h11.their_state (h11_state (self c)) = h11.IDLE
  /\ writer_closed (writer (self c)) = false
  /\ filter is_release (log c) = [release "release_connection"%string].
Proof. vm_compute. repeat split; reflexivity. Qed.

(** One interim response before the final one is skipped. *)
Example one_interim_response_is_skipped :
  match fst (send 8 Run.GET Run.buffered
               (Run.fresh Run.continue_then_ok Run.pool)) with
  | Ok response =>
      status_code response = 200%Z /\ content response = Some (encode "hello")
  | _ => False
  end.
Proof. vm_compute. split; reflexivity. Qed.

(** The wire calls of a request with two body chunks. *)
Example post_wire_calls :
  filter is_request_wire
    (log (snd (send 8 (Run.POST [encode "ab"; encode "cd"]) Run.buffered
                 (Run.fresh Run.ok_close Run.pool))))
  = [h11_send (h11.Request (encode "POST") "/upload" []);
     writer_write (encode "POST /upload HTTP/1.1" ++ Sim.CRLF ++ Sim.CRLF);
     h11_send (h11.Data (encode "ab")); writer_write (encode "ab");
     h11_send (h11.Data (encode "cd")); writer_write (encode "cd");
     h11_send h11.EndOfMessage; writer_write []].
Proof. vm_compute. reflexivity. Qed.

(** When the second write times out, the request stops there: the body
    chunk was handed to the state machine, its write was called, and
    nothing follows. *)
Example write_timeout_stops_the_request :
  send 8 (Run.POST [encode "ab"; encode "cd"]) Run.buffered Run.flaky
  = (Raise WriteTimeout,
     snd (send 8 (Run.POST [encode "ab"; encode "cd"]) Run.buffered Run.flaky))
  /\ log (snd (send 8 (Run.POST [encode "ab"; encode "cd"]) Run.buffered
                 Run.flaky))
     = [h11_send (h11.Request (encode "POST") "/upload" []);
        writer_write (encode "POST /upload HTTP/1.1" ++ Sim.CRLF ++ Sim.CRLF);
        h11_send (h11.Data (encode "ab")); writer_write (encode "ab")].
Proof. vm_compute. split; reflexivity. Qed.

(** [send(request, timeout=None)] on an unconnected facade fails the
    assertion of [connect]; on a facade that is bound, the same call goes
    to the driver, which takes [None] for "no timeout". *)
Example timeout_None_fails_only_connect :
  HTTPConnection_send (P := Run.online) 8 Run.GET Run.timeout_None
    Run.unconnected_online
  = (Raise AssertionError, Run.unconnected_online)
  /\ match fst (HTTPConnection_send (P := Run.online) 8 Run.GET
                  Run.timeout_None
                  (snd (HTTPConnection_connect Run.buffered_online
                          Run.unconnected_online))) with
     | Ok (inr response) => content response = Some (encode "hello")
     | _ => False
     end.
Proof. vm_compute. split; reflexivity. Qed.

(** After a response with [Connection: close] the driver is closed, and a
    further [send] is refused. *)
Example connection_close_is_final :
  let c :=
    snd (send 8 Run.GET Run.buffered (Run.fresh Run.ok_close Run.pool)) in
  HTTP11Connection_is_closed (self c) = true
  /\ writer_closed (writer (self c)) = true
  /\ fst (send 8 Run.GET Run.buffered c)
     = Raise (H11ProtocolError h11.LocalProtocolError).
Proof. vm_compute. repeat split; reflexivity. Qed.

(* ------------------------------------------------------------------ *)
(** * Further properties *)

Section FacadeProperties.

Context {H : Type} `{HC : h11.Connection H} {P : Package}.

Local Abbreviation Conn := (Conn (H := H)).
Local Abbreviation Facade := (Facade (H := H) (P := P)).

(** [HTTPConnection.connect], run on a state. *)
Lemma run_HTTPConnection_connect options (w : Facade) :
  HTTPConnection_connect options w =
  let this := self w in
  let on_release := release_func this in
  let dial tmo ctx :=
    match streams_connect (hostname (origin this)) (port (origin this)) ctx
            tmo with
    | Ok (rd, wr, HTTP_2) =>
        (Ok tt,
         mkWorld (with_h2_connection
                    (Some (HTTP2Connection_init rd wr on_release)) this)
           (log w))
    | Ok (rd, wr, HTTP_11) =>
        (Ok tt,
         mkWorld (with_h11_connection
                    (Some (HTTP11Connection_init rd wr on_release)) this)
           (log w))
    | Raise e => (Raise e, w)
    | Diverges => (Diverges, w)
    end in
  match effective_ssl options this with
  | None => (Raise AssertionError, w)
  | Some cfg =>
      match effective_timeout options this with
      | None => (Raise AssertionError, w)
      | Some tmo =>
          if is_ssl (origin this)
          then match load_ssl_context cfg with
               | Ok loaded => dial tmo (Some loaded)
               | Raise e => (Raise e, w)
               | Diverges => (Diverges, w)
               end
          else dial tmo None
      end
  end.
Proof.
  unfold HTTPConnection_connect, effective_ssl, effective_timeout.
  unfold bind at 1. unfold gets at 1. cbv zeta.
  destruct (options_get (kw_ssl options) (Some (ssl (self w)))) as [cfg |];
    [| reflexivity].
  unfold bind at 1. unfold assert_isinstance at 1. unfold ret at 1.
  destruct (options_get (kw_timeout options) (Some (timeout (self w))))
    as [tmo |]; [| reflexivity].
  unfold bind, assert_isinstance, gets, lift_result, ret, modify, partial.
  assert (Eh : match release_func (self w) with
               | Some f => Some f
               | None => None
               end = release_func (self w))
    by (destruct (release_func (self w)); reflexivity).
  rewrite Eh.
  destruct (is_ssl (origin (self w))).
  - destruct (load_ssl_context _) as [loaded | e |]; trivial.
    destruct (streams_connect _ _ _ _) as [[[rd wr] []] | e |]; reflexivity.
  - destruct (streams_connect _ _ _ _) as [[[rd wr] []] | e |]; reflexivity.
Qed.

Lemma HTTPConnection_connect_ok options (w : Facade) cfg tmo ctx rd wr proto :
  effective_ssl options (self w) = Some cfg ->
  effective_timeout options (self w) = Some tmo ->
  context_is cfg (self w) ctx ->
  streams_connect (hostname (origin (self w))) (port (origin (self w))) ctx
    tmo = Ok (rd, wr, proto) ->
  HTTPConnection_connect options w =
  (Ok tt,
   mkWorld
     (match proto with
      | HTTP_2 =>
          with_h2_connection
            (Some (HTTP2Connection_init rd wr (release_func (self w))))
            (self w)
      | HTTP_11 =>
          with_h11_connection
            (Some (HTTP11Connection_init rd wr (release_func (self w))))
            (self w)
      end)
     (log w)).
Proof.
  intros Hssl Htmo Hctx Hdial.
  rewrite run_HTTPConnection_connect. cbv zeta. rewrite Hssl, Htmo.
  destruct Hctx as [(Es & ->) | (Es & loaded & El & ->)]; rewrite Es.
  - rewrite Hdial. destruct proto; reflexivity.
  - rewrite El, Hdial. destruct proto; reflexivity.
Qed.

(** X1: [connect] reads each of its two configurations from the call when
    the key is given and from the instance when it is left out.  When both
    are configurations (the two assertions hold) and the transport is
    established, it binds exactly the driver of the negotiated protocol,
    built on that transport, with the facade's release callback as its hook;
    the other attributes of the facade and the log stay as they were.  A
    plain origin gets no SSL context, a secure one the context loaded from
    the SSL configuration. *)
Theorem connect_binds_negotiated_driver options (w : Facade) cfg tmo ctx
    rd wr proto :
  effective_ssl options (self w) = Some cfg ->
  effective_timeout options (self w) = Some tmo ->
  context_is cfg (self w) ctx ->
  streams_connect (hostname (origin (self w))) (port (origin (self w))) ctx
    tmo = Ok (rd, wr, proto) ->
  let hook := release_func (self w) in
  HTTPConnection_connect options w =
  (Ok tt,
   mkWorld
     (match proto with
      | HTTP_2 =>
          with_h2_connection (Some (HTTP2Connection_init rd wr hook)) (self w)
      | HTTP_11 =>
          with_h11_connection (Some (HTTP11Connection_init rd wr hook)) (self w)
      end)
     (log w))
  /\ (h2_connection (self w) = None ->
      HTTPConnection_is_http2 (self (snd (HTTPConnection_connect options w)))
      = match proto with HTTP_2 => true | HTTP_11 => false end).
Proof.
  intros Hssl Htmo Hctx Hdial hook.
  pose proof (HTTPConnection_connect_ok options w cfg tmo ctx rd wr proto
                Hssl Htmo Hctx Hdial) as E.
  split; [exact E |].
  intros E2. rewrite E. cbn [snd self].
  destruct proto; unfold HTTPConnection_is_http2; cbn; rewrite ?E2; reflexivity.
Qed.

(** X2: [connect] fails in three ways, and each time it raises and leaves
    the facade and the log as they were: with [AssertionError] when the SSL
    configuration or the timeout it reads is [None] (a key given as [None]
    in the call), before anything is loaded or dialled; with the exception
    of [load_ssl_context] for a secure origin; with the exception of
    [streams.connect].  A [send] on an unconnected facade then raises the
    same exception, stays unconnected and has sent nothing. *)
Theorem connect_failure_changes_nothing fuel request options (w : Facade) e :
  ((effective_ssl options (self w) = None
    \/ effective_timeout options (self w) = None)
   /\ e = AssertionError)
  \/ (exists cfg tmo,
        effective_ssl options (self w) = Some cfg
        /\ effective_timeout options (self w) = Some tmo
        /\ ((is_ssl (origin (self w)) = true
             /\ load_ssl_context cfg = Raise e)
            \/ (exists ctx,
                  context_is cfg (self w) ctx
                  /\ streams_connect (hostname (origin (self w)))
                       (port (origin (self w))) ctx tmo = Raise e))) ->
  HTTPConnection_connect options w = (Raise e, w)
  /\ (both_None (self w) = true ->
      HTTPConnection_send fuel request options w = (Raise e, w)).
Proof.
  intros Hfail.
  assert (E : HTTPConnection_connect options w = (Raise e, w)).
  { rewrite run_HTTPConnection_connect. cbv zeta.
    destruct Hfail as [([Hn | Hn] & ->) | (cfg & tmo & Hssl & Htmo & Hfail)].
    - rewrite Hn. reflexivity.
    - rewrite Hn. destruct (effective_ssl options (self w)); reflexivity.
    - rewrite Hssl, Htmo.
      destruct Hfail as [(Es & El) | (ctx & Hctx & Hdial)].
      + rewrite Es, El. reflexivity.
      + destruct Hctx as [(Es & ->) | (Es & loaded & El & ->)]; rewrite Es.
        * rewrite Hdial. reflexivity.
        * rewrite El, Hdial. reflexivity. }
  split; [exact E |].
  intros Eb. unfold HTTPConnection_send.
  unfold bind at 1. unfold gets at 1. rewrite Eb.
  unfold bind at 1. rewrite E. reflexivity.
Qed.

Lemma run_HTTPConnection_send_h2 fuel request options (w : Facade) d :
  h2_connection (self w) = Some d ->
  HTTPConnection_send fuel request options w =
  let (r, c) := HTTP2Connection_send fuel request options
                  (mkWorld d (log w)) in
  (match r with
   | Ok response => Ok (inl response)
   | Raise e => Raise e
   | Diverges => Diverges
   end,
   mkWorld (with_h2_connection (Some (self c)) (self w)) (log c)).
Proof.
  intros E2. unfold HTTPConnection_send.
  unfold bind at 1. unfold gets at 1.
  assert (Eb : both_None (self w) = false)
    by (unfold both_None; rewrite E2; destruct (h11_connection _); trivial).
  rewrite Eb. unfold bind at 1. unfold ret at 1.
  unfold bind at 1. unfold gets at 1. rewrite E2.
  unfold bind, on_h2, ret.
  destruct (HTTP2Connection_send _ _ _ _) as [[r | e |] c]; reflexivity.
Qed.

Lemma run_HTTPConnection_send_h11 fuel request options (w : Facade) d :
  h2_connection (self w) = None ->
  h11_connection (self w) = Some d ->
  HTTPConnection_send fuel request options w =
  let (r, c) := send fuel request options (mkWorld d (log w)) in
  (match r with
   | Ok response => Ok (inr response)
   | Raise e => Raise e
   | Diverges => Diverges
   end,
   mkWorld (with_h11_connection (Some (self c)) (self w)) (log c)).
Proof.
  intros E2 E1. unfold HTTPConnection_send.
  unfold bind at 1. unfold gets at 1.
  assert (Eb : both_None (self w) = false)
    by (unfold both_None; rewrite E1; trivial).
  rewrite Eb. unfold bind at 1. unfold ret at 1.
  unfold bind at 1. unfold gets at 1. rewrite E2, E1.
  unfold bind, on_h11, ret.
  destruct (send _ _ _ _) as [[r | e |] c]; reflexivity.
Qed.

Lemma run_HTTPConnection_close_h11 (w : Facade) d :
  h2_connection (self w) = None ->
  h11_connection (self w) = Some d ->
  HTTPConnection_close w =
  let (r, c) := close (mkWorld d (log w)) in
  (r, mkWorld (with_h11_connection (Some (self c)) (self w)) (log c)).
Proof.
  intros E2 E1. unfold HTTPConnection_close, bind, gets. cbn.
  rewrite E2, E1. reflexivity.
Qed.

(** X3: with a driver bound, [send] does not connect: it is the [send] of
    the bound driver, run on the bound driver object, the multiplexed
    driver being looked at first; the other attributes of the facade are
    left alone. *)
Theorem HTTPConnection_send_delegates fuel request options (w : Facade) :
  (forall d, h2_connection (self w) = Some d ->
   HTTPConnection_send fuel request options w =
   let (r, c) := HTTP2Connection_send fuel request options
                   (mkWorld d (log w)) in
   (match r with
    | Ok response => Ok (inl response)
    | Raise e => Raise e
    | Diverges => Diverges
    end,
    mkWorld (with_h2_connection (Some (self c)) (self w)) (log c)))
  /\ (forall d, h2_connection (self w) = None ->
      h11_connection (self w) = Some d ->
      HTTPConnection_send fuel request options w =
      let (r, c) := send fuel request options (mkWorld d (log w)) in
      (match r with
       | Ok response => Ok (inr response)
       | Raise e => Raise e
       | Diverges => Diverges
       end,
       mkWorld (with_h11_connection (Some (self c)) (self w)) (log c))).
Proof.
  split.
  - intros d. apply run_HTTPConnection_send_h2.
  - intros d. apply run_HTTPConnection_send_h11.
Qed.

(** X4: once a driver is bound, neither [send] nor [close] unbinds it or
    changes the protocol: the facade stays bound and [is_http2] keeps its
    value. *)
Theorem binding_is_permanent fuel request options (w : Facade) :
  both_None (self w) = false ->
  let sent := self (snd (HTTPConnection_send fuel request options w)) in
  let closed := self (snd (HTTPConnection_close w)) in
  (both_None sent = false
   /\ HTTPConnection_is_http2 sent = HTTPConnection_is_http2 (self w))
  /\ (both_None closed = false
      /\ HTTPConnection_is_http2 closed = HTTPConnection_is_http2 (self w)).
Proof.
  intros Eb sent closed. subst sent closed.
  unfold HTTPConnection_is_http2.
  destruct (h2_connection (self w)) as [d2 |] eqn:E2.
  - rewrite (run_HTTPConnection_send_h2 fuel request options w d2 E2).
    unfold HTTPConnection_close, bind, gets. cbn [fst snd self]. rewrite E2.
    unfold on_h2.
    destruct (HTTP2Connection_send _ _ _ _) as [r c].
    destruct (HTTP2Connection_close _) as [r' c'].
    cbn. unfold both_None. cbn.
    destruct (h11_connection (self w)); auto.
  - destruct (h11_connection (self w)) as [d1 |] eqn:E1.
    + rewrite (run_HTTPConnection_send_h11 fuel request options w d1 E2 E1).
      rewrite (run_HTTPConnection_close_h11 w d1 E2 E1).
      destruct (send _ _ _ _) as [r c].
      destruct (close _) as [r' c'].
      cbn. rewrite E2. auto.
    + unfold both_None in Eb. rewrite E1, E2 in Eb. discriminate Eb.
Qed.

(** X5: on an unconnected facade [send] connects first, with the options
    of the call, and, when [connect] finds its two configurations and the
    transport is established, sends on the driver it has just bound: for
    HTTP/1.1, a driver over the new transport with a state machine in its
    initial state and the facade's release callback as hook.  The facade
    holds that driver afterwards, whatever the outcome of the request. *)
Theorem send_connects_lazily fuel request options (w : Facade) cfg tmo ctx
    rd wr :
  both_None (self w) = true ->
  effective_ssl options (self w) = Some cfg ->
  effective_timeout options (self w) = Some tmo ->
  context_is cfg (self w) ctx ->
  streams_connect (hostname (origin (self w))) (port (origin (self w))) ctx
    tmo = Ok (rd, wr, HTTP_11) ->
  HTTPConnection_send fuel request options w =
  let (r, c) :=
    send fuel request options
      (mkWorld (HTTP11Connection_init rd wr (release_func (self w))) (log w)) in
  (match r with
   | Ok response => Ok (inr response)
   | Raise e => Raise e
   | Diverges => Diverges
   end,
   mkWorld (with_h11_connection (Some (self c)) (self w)) (log c)).
Proof.
  intros Eb Hssl Htmo Hctx Hdial.
  assert (E2 : h2_connection (self w) = None).
  { unfold both_None in Eb.
    destruct (h11_connection (self w)), (h2_connection (self w));
      trivial; discriminate. }
  unfold HTTPConnection_send.
  unfold bind at 1. unfold gets at 1. rewrite Eb.
  unfold bind at 1.
  rewrite (HTTPConnection_connect_ok options w cfg tmo ctx rd wr HTTP_11
             Hssl Htmo Hctx Hdial).
  unfold bind at 1. unfold gets at 1. cbn [self h2_connection
    with_h11_connection h11_connection]. rewrite E2.
  unfold bind, on_h11, ret. cbn [self log].
  destruct (send _ _ _ _) as [[r | e |] c]; reflexivity.
Qed.

Context {HL : h11.Lawful H}.

(** X6: after [close()] on a facade bound to the HTTP/1.1 driver,
    [is_closed] returns true. *)
Theorem closed_facade_is_closed (w : Facade) d :
  h2_connection (self w) = None ->
  h11_connection (self w) = Some d ->
  fst (HTTPConnection_close w) = Ok tt
  /\ HTTPConnection_is_closed (self (snd (HTTPConnection_close w))) = Ok true.
Proof.
  intros E2 E1.
  rewrite (run_HTTPConnection_close_h11 w d E2 E1), run_close.
  cbn [fst snd self log]. split; [reflexivity |].
  unfold HTTPConnection_is_closed. cbn. rewrite E2.
  unfold HTTP11Connection_is_closed. cbn.
  destruct (h11.closed_is_terminal (h11_state d)) as [E | E];
    cbv zeta in E; rewrite E; reflexivity.
Qed.

End FacadeProperties.

(** ** Relations every step of the driver keeps *)

Section Invariant.

Context {H : Type} `{HC : h11.Connection H} {P : Package}.

Local Abbreviation Conn := (Conn (H := H)).

Variable R : Conn -> Conn -> Prop.
Hypothesis R_refl : forall c, R c c.
Hypothesis R_trans : forall c1 c2 c3, R c1 c2 -> R c2 c3 -> R c1 c3.

Local Abbreviation keeps := (steps R).

Lemma keeps_bind {A B} (m : M Conn A) (k : A -> M Conn B) :
  keeps m -> (forall a, keeps (k a)) -> keeps (bind m k).
Proof. apply steps_bind, R_trans. Qed.

Lemma keeps__send_event e t :
  keeps (h11_state_send e) -> (forall d, keeps (writer_write_ d t)) ->
  keeps (_send_event e t).
Proof. intros Hs Hw. apply keeps_bind; [exact Hs | exact Hw]. Qed.

Lemma keeps_send_request request t :
  (forall e, keeps (h11_state_send e)) ->
  (forall d, keeps (writer_write_ d t)) ->
  keeps (send_request request t).
Proof.
  intros Hs Hw. unfold send_request.
  apply keeps_bind; [apply keeps__send_event; auto | intros _].
  apply keeps_bind; [| intros _; apply keeps__send_event; auto].
  induction (req_stream request) as [| d chunks IH]; simpl.
  - apply steps_ret, R_refl.
  - apply keeps_bind; [apply keeps__send_event; auto | intros _; exact IH].
Qed.

Lemma keeps__receive_event t :
  keeps h11_state_next_event ->
  (forall n, keeps (reader_read_ n t)) ->
  (forall d, keeps (h11_state_receive_data d)) ->
  keeps (_receive_event t).
Proof.
  intros Hn Hr Hf.
  assert (W : forall n event, keeps (_receive_event_while n event t)).
  { induction n as [| n IH]; intros event.
    - destruct event; try (apply steps_ret, R_refl). intros c. apply R_refl.
    - destruct event; try (apply steps_ret, R_refl). simpl.
      apply keeps_bind; [apply Hr | intros data].
      apply keeps_bind; [apply Hf | intros _].
      apply keeps_bind; [apply Hn | intros event']. apply IH. }
  apply keeps_bind; [exact Hn | intros event].
  apply keeps_bind; [apply steps_gets, R_refl | intros n]. apply W.
Qed.

Lemma keeps_receive_response t :
  keeps (_receive_event t) -> keeps (receive_response t).
Proof.
  intros Hr. apply keeps_bind; [exact Hr | intros event].
  destruct (is_InformationalResponse event);
    [exact Hr | apply steps_ret, R_refl].
Qed.

Lemma keeps__body_iter t : keeps (_receive_event t) -> keeps (_body_iter t).
Proof.
  intros Hr. apply keeps_bind; [exact Hr | intros event].
  destruct event as [[] | |]; try (apply steps_ret, R_refl);
    apply steps_raise, R_refl.
Qed.

Lemma keeps_drain fuel pull acc : keeps pull -> keeps (drain fuel pull acc).
Proof.
  intros Hp. revert acc. induction fuel as [| fuel IH]; intros acc.
  - intros c. apply R_refl.
  - simpl. apply keeps_bind; [exact Hp | intros [data |]].
    + apply IH.
    + apply steps_ret, R_refl.
Qed.

Lemma keeps_close :
  keeps (h11_state_send h11.ConnectionClosed) -> keeps writer_close_ ->
  keeps close.
Proof.
  intros Hs Hw. unfold close. cbv zeta.
  apply keeps_bind; [| intros _; exact Hw].
  apply steps_except_ProtocolError_pass.
  apply keeps_bind; [exact Hs | intros _; apply steps_ret, R_refl].
Qed.

Lemma keeps_response_closed :
  keeps h11_state_start_next_cycle -> keeps close ->
  (forall f, keeps (emit (release f))) ->
  keeps response_closed.
Proof.
  intros Hc Hcl Hh. unfold response_closed.
  apply keeps_bind; [apply steps_gets, R_refl | intros ours].
  apply keeps_bind; [apply steps_gets, R_refl | intros theirs].
  apply keeps_bind.
  - destruct (is_DONE ours && is_DONE theirs); assumption.
  - intros _. apply keeps_bind; [apply steps_gets, R_refl | intros hook].
    destruct hook; [apply Hh | apply steps_ret, R_refl].
Qed.

(** What [send] does once the request is out is made of [_receive_event]
    and [response_closed]. *)
Lemma keeps_after_request fuel request options (c : Conn) :
  keeps (_receive_event (opt_timeout options)) -> keeps response_closed ->
  match send_request request (opt_timeout options) c with
  | (Ok _, c0) => R c0 (snd (send fuel request options c))
  | (Raise e, c0) => send fuel request options c = (Raise e, c0)
  | (Diverges, c0) => send fuel request options c = (Diverges, c0)
  end.
Proof.
  intros Hr Hc. rewrite run_send. cbv zeta.
  destruct (send_request request (opt_timeout options) c) as [[[] | e |] c0];
    trivial.
  pose proof (keeps_receive_response (opt_timeout options) Hr c0) as G1.
  destruct (receive_response (opt_timeout options) c0) as [[event | e |] c1];
    cbn [snd] in G1; trivial.
  destruct event as [[m t h | st hd rs | st hd rs | d | |] | |]; trivial.
  destruct (opt_stream options); trivial.
  pose proof (keeps_drain fuel (_body_iter (opt_timeout options)) []
                (keeps__body_iter (opt_timeout options) Hr) c1) as G2.
  destruct (drain fuel _ [] c1) as [[b | e |] c2]; cbn [snd] in G2;
    try (pose proof (Hc c2) as G3;
         destruct (response_closed c2) as [[[] | e' |] c3]; cbn [snd] in *);
    eauto.
Qed.

Lemma keeps_send fuel request options :
  keeps (send_request request (opt_timeout options)) ->
  keeps (_receive_event (opt_timeout options)) -> keeps response_closed ->
  keeps (send fuel request options).
Proof.
  intros Hs Hr Hc c.
  pose proof (keeps_after_request fuel request options c Hr Hc) as T.
  pose proof (Hs c) as G0.
  destruct (send_request request (opt_timeout options) c) as [[[] | e |] c0];
    cbn [snd] in G0.
  - eauto.
  - rewrite T. exact G0.
  - rewrite T. exact G0.
Qed.

End Invariant.

Section DriverProperties.

Context {H : Type} `{HC : h11.Connection H} {P : Package}.

Local Abbreviation Conn := (Conn (H := H)).

(** ** What reaches the wire *)

Lemma Writer_write_written (w : Writer) (d : bytes) :
  written (snd (Writer_write w d))
  = match fst (Writer_write w d) with
    | Ok _ => written w ++ [d]
    | _ => written w
    end.
Proof. unfold Writer_write. destruct (faults w) as [| [] ?]; reflexivity. Qed.

Lemma Writer_write_keeps_closed (w : Writer) (d : bytes) :
  writer_closed (snd (Writer_write w d)) = writer_closed w.
Proof. unfold Writer_write. destruct (faults w) as [| [] ?]; reflexivity. Qed.

(** What [send_all] leaves on the wire: the bytes of the events that were
    accepted and written, in order. *)
Lemma send_all_written events timeout (c : Conn) :
  exists j,
    written (writer (self (snd (send_all events timeout c))))
    = written (writer (self c))
      ++ firstn j (encodings (h11_state (self c)) events)
    /\ match fst (send_all events timeout c) with
       | Ok _ => j = List.length events
       | _ => j < List.length events
       end.
Proof.
  revert c. induction events as [| e events IH]; intros c.
  - exists 0. cbn. rewrite app_nil_r. auto.
  - cbn [send_all encodings]. unfold _send_event. unfold bind.
    rewrite run_h11_state_send.
    destruct (h11.send (h11_state (self c)) e) as [[x | d] s];
      cbn [of_h11 fst snd].
    + exists 0. cbn. rewrite app_nil_r. split; [reflexivity | lia].
    + rewrite run_writer_write.
      cbn [self log writer reader on_release h11_state].
      pose proof (Writer_write_written (writer (self c)) d) as W.
      destruct (Writer_write (writer (self c)) d) as [[[] | x |] w];
        cbn [fst snd] in *.
      * match goal with |- context [send_all events timeout ?c2] =>
          destruct (IH c2) as (j & Ew & Hj) end.
        exists (S j). split.
        -- rewrite Ew. cbn [self writer h11_state firstn]. rewrite W.
           rewrite <- app_assoc. reflexivity.
        -- destruct (fst (send_all events timeout _)); cbn [List.length]; lia.
      * exists 0. cbn. rewrite app_nil_r. split; [exact W | lia].
      * exists 0. cbn. rewrite app_nil_r. split; [exact W | lia].
Qed.

Lemma same_written_receive_event t : steps same_written (_receive_event t).
Proof.
  apply keeps__receive_event; unfold same_written; try congruence.
  - intros c. rewrite run_h11_state_next_event.
    destruct (h11.next_event _) as [[e | ne] s]; reflexivity.
  - intros n c. rewrite run_reader_read. reflexivity.
  - intros d c. reflexivity.
Qed.

Lemma same_written_response_closed : steps same_written response_closed.
Proof.
  apply keeps_response_closed; unfold same_written; try congruence.
  - intros c. rewrite run_h11_state_start_next_cycle.
    destruct (h11.start_next_cycle _). reflexivity.
  - intros c. rewrite run_close. reflexivity.
  - intros f c. reflexivity.
Qed.

(** X7: all that [send] ever writes to the transport are the bytes the
    state machine made of the request's events, in order: what is on the
    wire afterwards is what was there before followed by an initial
    stretch of them, all of them when [send] returns a response.  Neither
    receiving nor closing writes anything. *)
Theorem send_writes_only_the_request fuel request options (c : Conn) :
  let events := request_events request in
  let ds := encodings (h11_state (self c)) events in
  exists j,
    written (writer (self (snd (send fuel request options c))))
    = written (writer (self c)) ++ firstn j ds
    /\ match fst (send fuel request options c) with
       | Ok _ => j = List.length ds
       | _ => j <= List.length ds
       end.
Proof.
  intros events ds.
  pose proof (keeps_after_request same_written
                (fun c => eq_refl)
                (fun c1 c2 c3 E1 E2 => eq_trans E2 E1)
                fuel request options c
                (same_written_receive_event (opt_timeout options))
                same_written_response_closed) as Tail.
  rewrite send_request_all in Tail.
  destruct (send_all_written events (opt_timeout options) c) as (j & Ew & Hj).
  fold events in Tail. fold ds in Ew.
  assert (El : List.length ds = List.length events)
    by apply encodings_length.
  exists j.
  destruct (send_all events (opt_timeout options) c) as [[[] | e |] c0];
    cbn [fst snd] in *.
  - unfold same_written in Tail. rewrite Tail, Ew. split; [reflexivity |].
    destruct (fst (send fuel request options c)); lia.
  - rewrite Tail. cbn [fst snd]. split; [exact Ew | lia].
  - rewrite Tail. cbn [fst snd]. split; [exact Ew | lia].
Qed.

(** ** When the request cannot be sent *)

Lemma same_transport_send_request request t :
  steps same_transport (send_request request t).
Proof.
  apply keeps_send_request; unfold same_transport.
  - auto.
  - intros c1 c2 c3 [E1 E2] [E3 E4]. split; congruence.
  - intros e c. rewrite run_h11_state_send. auto.
  - intros d c. rewrite run_writer_write. cbn.
    rewrite Writer_write_keeps_closed. auto.
Qed.

(** X8: when a step of sending the request raises (the state machine
    rejects an event, or a write times out), [send] raises that exception
    and does nothing more: no read, no [close()], no call of the release
    hook.  The reader is untouched and the transport is as open as it
    was. *)
Theorem failed_request_is_abandoned fuel request options (c c0 : Conn) e :
  send_request request (opt_timeout options) c = (Raise e, c0) ->
  send fuel request options c = (Raise e, c0)
  /\ reader (self c0) = reader (self c)
  /\ writer_closed (writer (self c0)) = writer_closed (writer (self c))
  /\ on_release (self c0) = on_release (self c)
  /\ exists new, log c0 = log c ++ new /\ forallb is_sending new = true.
Proof.
  intros E.
  split; [rewrite run_send; cbv zeta; rewrite E; reflexivity |].
  pose proof (same_transport_send_request request (opt_timeout options) c)
    as [T1 T2].
  pose proof (quiet_send_request is_sending request (opt_timeout options)
                (fun _ => eq_refl) (fun _ => eq_refl) c) as [G1 G2].
  rewrite E in *. cbn [snd] in *. auto.
Qed.

(** ** What is read reaches the state machine *)

Lemma fed_app (l1 l2 : list Action) : fed (l1 ++ l2) = fed l1 ++ fed l2.
Proof.
  induction l1 as [| a l1 IH]; simpl; trivial.
  destruct a; simpl; rewrite ?IH; reflexivity.
Qed.

Lemma somes_app (l1 l2 : list (option bytes)) :
  somes (l1 ++ l2) = somes l1 ++ somes l2.
Proof.
  induction l1 as [| [d |] l1 IH]; simpl; rewrite ?IH; reflexivity.
Qed.

Lemma hands_on_refl (c : Conn) : hands_on c c.
Proof. exists [], []. rewrite app_nil_r. auto. Qed.

Lemma hands_on_trans (c1 c2 c3 : Conn) :
  hands_on c1 c2 -> hands_on c2 c3 -> hands_on c1 c3.
Proof.
  intros (n1 & k1 & L1 & A1 & F1) (n2 & k2 & L2 & A2 & F2).
  exists (n1 ++ n2), (k1 ++ k2). split; [| split].
  - rewrite L2, L1, app_assoc. reflexivity.
  - rewrite A1, A2, app_assoc. reflexivity.
  - rewrite fed_app, somes_app, F1, F2. reflexivity.
Qed.

(** A step that leaves the reader alone and hands nothing over. *)
Lemma hands_on_aside (c c' : Conn) new :
  reader (self c') = reader (self c) ->
  log c' = log c ++ new -> fed new = [] ->
  hands_on c c'.
Proof.
  intros Er El Ef. exists new, []. rewrite Er, Ef. auto.
Qed.

Lemma Reader_read_consumes (r : Reader) :
  exists consumed,
    arrivals r = consumed ++ arrivals (snd (Reader_read r))
    /\ somes consumed = match fst (Reader_read r) with
                        | Ok d => [d]
                        | _ => []
                        end.
Proof.
  unfold Reader_read. destruct (arrivals r) as [| [d |] rest].
  - exists []. auto.
  - exists [Some d]. auto.
  - exists [None]. auto.
Qed.

Lemma hands_on_next_event : steps hands_on h11_state_next_event.
Proof.
  intros c. rewrite run_h11_state_next_event.
  destruct (h11.next_event _) as [[e | ne] s]; cbn [snd].
  - apply hands_on_aside with (new := []); trivial. cbn.
    rewrite app_nil_r. reflexivity.
  - apply hands_on_aside with (new := [h11_next_event ne]); trivial.
Qed.

Lemma hands_on_receive_event_while n event t :
  steps hands_on (_receive_event_while n event t).
Proof.
  revert event. induction n as [| n IH]; intros event c.
  - destruct event; apply hands_on_refl.
  - destruct event; try apply hands_on_refl.
    rewrite _receive_event_while_step.
    destruct (Reader_read_consumes (reader (self c))) as (k & Ea & Es).
    destruct (Reader_read (reader (self c))) as [[data | e |] rd];
      cbn [fst snd] in *.
    + cbv zeta.
      match goal with |- context [h11_state_next_event ?c1] =>
        assert (G1 : hands_on c c1)
          by (exists [reader_read READ_NUM_BYTES; h11_receive_data data], k;
              cbn; auto);
        pose proof (hands_on_next_event c1) as G2;
        destruct (h11_state_next_event c1) as [[ev | e |] c2]
      end; cbn [snd] in *.
      * eapply hands_on_trans; [| apply IH].
        eapply hands_on_trans; eassumption.
      * eapply hands_on_trans; eassumption.
      * eapply hands_on_trans; eassumption.
    + exists [reader_read READ_NUM_BYTES], k. cbn. auto.
    + exists [reader_read READ_NUM_BYTES], k. cbn. auto.
Qed.

Lemma hands_on_receive_event t : steps hands_on (_receive_event t).
Proof.
  apply steps_bind; [exact hands_on_trans | exact hands_on_next_event |].
  intros event.
  apply steps_bind; [exact hands_on_trans | |].
  - apply steps_gets, hands_on_refl.
  - intros n. apply hands_on_receive_event_while.
Qed.

Lemma hands_on_send_request request t :
  steps hands_on (send_request request t).
Proof.
  apply keeps_send_request.
  - exact hands_on_refl.
  - exact hands_on_trans.
  - intros e c. rewrite run_h11_state_send.
    apply hands_on_aside with (new := [h11_send e]); trivial.
  - intros d c. rewrite run_writer_write.
    apply hands_on_aside with (new := [writer_write d]); trivial.
Qed.

Lemma hands_on_response_closed : steps hands_on response_closed.
Proof.
  apply keeps_response_closed.
  - exact hands_on_refl.
  - exact hands_on_trans.
  - intros c. rewrite run_h11_state_start_next_cycle.
    destruct (h11.start_next_cycle _).
    apply hands_on_aside with (new := [h11_start_next_cycle]); trivial.
  - intros c. rewrite run_close.
    apply hands_on_aside
      with (new := [h11_send h11.ConnectionClosed; writer_close]); trivial.
  - intros f [[r w h s] l].
    apply hands_on_aside with (new := [release f]); trivial.
Qed.

(** X9: [send] loses nothing of what it reads: the entries it took from
    the reader are the first ones the reader had, and the chunks among
    them are exactly what it handed to the state machine, in the order of
    their arrival.  The same holds for each [_receive_event] and each pull
    of the body. *)
Theorem received_data_reaches_the_state_machine fuel request options
    (c : Conn) :
  hands_on c (snd (send fuel request options c))
  /\ hands_on c (snd (_receive_event (opt_timeout options) c))
  /\ hands_on c (snd (_body_iter (opt_timeout options) c)).
Proof.
  split; [| split].
  - apply (keeps_send hands_on hands_on_refl hands_on_trans).
    + apply hands_on_send_request.
    + apply hands_on_receive_event.
    + apply hands_on_response_closed.
  - apply hands_on_receive_event.
  - apply (keeps__body_iter hands_on hands_on_refl hands_on_trans).
    apply hands_on_receive_event.
Qed.

(** ** What [_receive_event] and [_body_iter] can come back with *)

Lemma Reader_read_raises (r : Reader) e :
  fst (Reader_read r) = Raise e -> e = ReadTimeout.
Proof.
  unfold Reader_read. destruct (arrivals r) as [| [d |] rest]; cbn;
    intros E; inversion E; reflexivity.
Qed.

Lemma _receive_event_while_raises n event t (c : Conn) e :
  fst (_receive_event_while n event t c) = Raise e -> receiving_failure e.
Proof.
  revert event c. induction n as [| n IH]; intros event c.
  - destruct event; cbn; discriminate.
  - destruct event; try (cbn; discriminate).
    rewrite _receive_event_while_step.
    pose proof (Reader_read_raises (reader (self c))) as Rr.
    destruct (Reader_read (reader (self c))) as [[data | x |] rd];
      cbn [fst snd] in *.
    + cbv zeta. rewrite run_h11_state_next_event.
      destruct (h11.next_event _) as [[pe | ne] s].
      * cbn. intros E. inversion E. right. eauto.
      * apply IH.
    + intros E. inversion E. subst. left. auto.
    + discriminate.
Qed.

(** X10: [_receive_event] never returns the [NEED_DATA] sentinel, and the
    only exceptions it raises are the reader's timeout and the state
    machine's protocol error.  A pull of the body raises these, or fails
    its assertion, and it does that exactly when the event it received is
    neither [Data] nor [EndOfMessage]. *)
Theorem receive_event_outcomes t (c : Conn) :
  match fst (_receive_event t c) with
  | Ok event => event <> h11.NEED_DATA
  | Raise e => receiving_failure e
  | Diverges => False
  end
  /\ match _receive_event t c, _body_iter t c with
     | (Ok (h11.Ev (h11.Data d)), c1), pulled => pulled = (Ok (Some d), c1)
     | (Ok (h11.Ev h11.EndOfMessage), c1), pulled => pulled = (Ok None, c1)
     | (Ok _, c1), pulled => pulled = (Raise AssertionError, c1)
     | (Raise e, c1), pulled => pulled = (Raise e, c1)
     | (Diverges, c1), pulled => pulled = (Diverges, c1)
     end.
Proof.
  split.
  - pose proof (_receive_event_returns t c) as T.
    destruct (_receive_event_log t c) as (new & _ & _ & Ha).
    destruct (fst (_receive_event t c)) as [ne | e |] eqn:E.
    + destruct Ha as [Hn _]. intros ->. discriminate Hn.
    + rewrite run__receive_event in E.
      destruct (h11.next_event _) as [[pe | ne] s].
      * cbn in E. inversion E. right. eauto.
      * eapply _receive_event_while_raises. exact E.
    + contradiction.
  - unfold _body_iter, bind.
    destruct (_receive_event t c) as [[[[] | |] | e |] c1]; reflexivity.
Qed.

(** ** Closing, reuse and the release hook *)

Context {HL : h11.Lawful H}.

(** X11: after [close()] the driver reports [is_closed], and a driver that
    reports [is_closed] refuses every [send]: the state machine rejects the
    request-start event, [send] raises its protocol error, and nothing is
    written to or read from the transport. *)
Theorem closed_driver_refuses_send fuel request options (c : Conn) :
  HTTP11Connection_is_closed (self (snd (close c))) = true
  /\ (HTTP11Connection_is_closed (self c) = true ->
      fst (send fuel request options c)
      = Raise (H11ProtocolError h11.LocalProtocolError)
      /\ reader (self (snd (send fuel request options c))) = reader (self c)
      /\ writer (self (snd (send fuel request options c))) = writer (self c)).
Proof.
  split.
  - rewrite run_close. unfold HTTP11Connection_is_closed. cbn.
    destruct (h11.closed_is_terminal (h11_state (self c))) as [E | E];
      cbv zeta in E; rewrite E; reflexivity.
  - intros Ec.
    assert (N : h11.our_state (h11_state (self c)) <> h11.IDLE).
    { unfold HTTP11Connection_is_closed in Ec. intros E. rewrite E in Ec.
      discriminate Ec. }
    rewrite (send_refused_unless_idle fuel request options c N).
    cbn. auto.
Qed.

(** Up to the end of the body nothing calls the release hook. *)
Lemma no_release_before_close fuel request (t : OptionalTimeout) :
  steps (grows (H := H) not_release) (send_request request t)
  /\ steps (grows not_release) (receive_response t)
  /\ steps (grows not_release) (drain fuel (_body_iter t) []).
Proof.
  assert (Hr : forall a, is_receiving a = true -> not_release a = true)
    by (intros []; cbn; trivial; discriminate).
  split; [| split].
  - apply quiet_send_request; reflexivity.
  - apply quiet_receive_response, Hr.
  - apply quiet_drain, quiet__body_iter, Hr.
Qed.

Lemma hook_calls_grows ok (c c' : Conn) :
  grows ok c c' -> hook_calls c' = hook_calls c.
Proof. intros [E _]. unfold hook_calls. rewrite E. reflexivity. Qed.

(** What [response_closed] adds to the log holds one call of the hook. *)
Lemma response_closed_releases_once (c : Conn) :
  exists closing,
    log (snd (response_closed c)) = log c ++ closing ++ hook_calls c
    /\ forallb not_release closing = true.
Proof.
  rewrite run_response_closed. destruct (_ && _); cbn [snd log].
  - exists [h11_start_next_cycle]. auto.
  - exists [h11_send h11.ConnectionClosed; writer_close]. auto.
Qed.

Lemma filter_release_hook_calls (c : Conn) :
  filter is_release (hook_calls c) = hook_calls c.
Proof. unfold hook_calls. destruct (on_release (self c)); reflexivity. Qed.

(** X12: one [send] calls the release hook at most once, and a streamed
    [send] never calls it: among all that [send] adds to the log there is
    no call of the hook, or, for a buffered [send], the one call of
    [response_closed] (when a hook was supplied). *)
Theorem send_releases_at_most_once fuel request options (c : Conn) :
  exists new,
    log (snd (send fuel request options c)) = log c ++ new
    /\ (filter is_release new = []
        \/ opt_stream options = false
           /\ filter is_release new = hook_calls c).
Proof.
  destruct (no_release_before_close fuel request (opt_timeout options))
    as (Q0 & Q1 & Q2).
  assert (Quiet : forall c', grows not_release c c' ->
            exists new, log c' = log c ++ new
                        /\ (filter is_release new = []
                            \/ opt_stream options = false
                               /\ filter is_release new = hook_calls c)).
  { intros c' (_ & new & El & Hn). exists new. split; [exact El |].
    left. apply filter_not_release, Hn. }
  assert (Closed : forall c2, opt_stream options = false ->
            grows not_release c c2 ->
            exists new, log (snd (response_closed c2)) = log c ++ new
                        /\ (filter is_release new = []
                            \/ opt_stream options = false
                               /\ filter is_release new = hook_calls c)).
  { intros c2 Es G.
    destruct (response_closed_releases_once c2) as (closing & El & Hc).
    rewrite (hook_calls_grows _ _ _ G) in El.
    destruct G as (_ & new & El2 & Hn).
    exists (new ++ closing ++ hook_calls c).
    split; [rewrite El, El2, <- app_assoc; reflexivity |].
    right. split; [exact Es |].
    rewrite !filter_app, !filter_not_release by trivial.
    apply filter_release_hook_calls. }
  rewrite run_send. cbv zeta.
  pose proof (Q0 c) as G0.
  destruct (send_request request (opt_timeout options) c) as [[[] | e |] c0];
    cbn [snd] in *; try (apply Quiet; exact G0).
  pose proof (grows_trans _ _ _ _ G0 (Q1 c0)) as G1.
  destruct (receive_response (opt_timeout options) c0) as [[event | e |] c1];
    cbn [snd] in *; try (apply Quiet; exact G1).
  destruct event as [[m t h | st hd rs | st hd rs | d | |] | |];
    try (apply Quiet; exact G1).
  destruct (opt_stream options) eqn:Es; [apply Quiet; exact G1 |].
  pose proof (grows_trans _ _ _ _ G1 (Q2 c1)) as G2.
  destruct (drain fuel _ [] c1) as [[b | e |] c2]; cbn [snd] in *.
  - pose proof (Closed c2 eq_refl G2) as T.
    destruct (response_closed c2) as [[[] | e' |] c3]; exact T.
  - pose proof (Closed c2 eq_refl G2) as T.
    destruct (response_closed c2) as [[[] | e' |] c3]; exact T.
  - apply Quiet; exact G2.
Qed.

Lemma same_closed_before_close fuel request (t : OptionalTimeout) :
  steps same_closed (send_request request t)
  /\ steps same_closed (receive_response t)
  /\ steps same_closed (drain fuel (_body_iter t) []).
Proof.
  assert (Rf : forall c : Conn, same_closed c c) by reflexivity.
  assert (Rt : forall c1 c2 c3 : Conn,
             same_closed c1 c2 -> same_closed c2 c3 -> same_closed c1 c3)
    by (unfold same_closed; congruence).
  assert (Hr : steps same_closed (_receive_event t)).
  { apply keeps__receive_event; trivial.
    - intros c'. rewrite run_h11_state_next_event.
      destruct (h11.next_event _) as [[e | ne] s]; reflexivity.
    - intros n c'. rewrite run_reader_read. reflexivity. }
  split; [| split].
  - apply keeps_send_request; trivial.
    + intros e c'. rewrite run_h11_state_send. reflexivity.
    + intros d c'. rewrite run_writer_write. unfold same_closed. cbn.
      apply Writer_write_keeps_closed.
  - apply keeps_receive_response; trivial.
  - apply keeps_drain, keeps__body_iter; trivial.
Qed.

(** X13: a buffered [send] whose body was read to its end returns the
    response and leaves the driver either reusable or closed.  If both
    roles of the state machine are in [DONE], they are back in [IDLE], the
    driver is not closed and the transport is as open as before the
    request; otherwise the driver is closed and so is the transport.
    Either way the hook was called once. *)
Theorem completed_exchange_reuses_or_closes fuel request options
    (c c1 c2 : Conn) st hd rs b :
  opt_stream options = false ->
  final_response_arrived request options c st hd rs c1 ->
  drain fuel (_body_iter (opt_timeout options)) [] c1 = (Ok b, c2) ->
  exists response c3,
    send fuel request options c = (Ok response, c3)
    /\ content response = Some b
    /\ (exists new,
          log c3 = log c ++ new /\ filter is_release new = hook_calls c)
    /\ (h11.our_state (h11_state (self c2)) = h11.DONE
        /\ h11.their_state (h11_state (self c2)) = h11.DONE
        /\ h11.our_state (h11_state (self c3)) = h11.IDLE
        /\ h11.their_state (h11_state (self c3)) = h11.IDLE
        /\ HTTP11Connection_is_closed (self c3) = false
        /\ writer_closed (writer (self c3)) = writer_closed (writer (self c))
        \/ ~ (h11.our_state (h11_state (self c2)) = h11.DONE
              /\ h11.their_state (h11_state (self c2)) = h11.DONE)
           /\ HTTP11Connection_is_closed (self c3) = true
           /\ writer_closed (writer (self c3)) = true).
Proof.
  intros Es Hhead Hdrain.
  destruct (no_release_before_close fuel request (opt_timeout options))
    as (Q0 & Q1 & Q2).
  destruct (same_closed_before_close fuel request (opt_timeout options))
    as (S0 & S1 & S2).
  rewrite (run_send_after_head fuel request options c st hd rs c1 Hhead).
  cbv zeta. rewrite Es, Hdrain.
  unfold final_response_arrived, bind in Hhead.
  specialize (Q0 c). specialize (S0 c).
  destruct (send_request request (opt_timeout options) c) as [[[] | x |] c0];
    try discriminate.
  specialize (Q1 c0). specialize (S1 c0). rewrite Hhead in Q1, S1.
  specialize (Q2 c1). specialize (S2 c1). rewrite Hdrain in Q2, S2.
  cbn [snd] in *.
  assert (G : grows not_release c c2) by eauto using grows_trans.
  assert (Sc : same_closed c c2) by (unfold same_closed in *; congruence).
  destruct (response_closed_releases_once c2) as (closing & El & Hc).
  rewrite (hook_calls_grows _ _ _ G) in El.
  destruct G as (_ & new & El2 & Hn).
  eexists. exists (snd (response_closed c2)).
  split; [reflexivity |]. split; [reflexivity |]. split.
  { exists (new ++ closing ++ hook_calls c).
    split; [rewrite El, El2, <- app_assoc; reflexivity |].
    rewrite !filter_app, !filter_not_release by trivial.
    apply filter_release_hook_calls. }
  rewrite run_response_closed.
  destruct (is_DONE (h11.our_state (h11_state (self c2)))) eqn:Eo;
    [destruct (is_DONE (h11.their_state (h11_state (self c2)))) eqn:Et |];
    cbn [andb snd self h11_state writer].
  - left.
    assert (Eo' : h11.our_state (h11_state (self c2)) = h11.DONE)
      by (destruct (h11.our_state _); trivial; discriminate).
    assert (Et' : h11.their_state (h11_state (self c2)) = h11.DONE)
      by (destruct (h11.their_state _); trivial; discriminate).
    destruct (h11.cycle_from_done (h11_state (self c2)) Eo' Et')
      as (s' & Ecycle & Io & It).
    rewrite Ecycle. cbn [snd].
    unfold HTTP11Connection_is_closed. cbn [h11_state]. rewrite Io.
    repeat split; trivial.
  - right. rewrite run_close. cbn [snd self writer h11_state].
    split; [| split; [| reflexivity]].
    + intros [_ E]. rewrite E in Et. discriminate Et.
    + unfold HTTP11Connection_is_closed. cbn [h11_state].
      destruct (h11.closed_is_terminal (h11_state (self c2))) as [E | E];
        cbv zeta in E; rewrite E; reflexivity.
  - right. rewrite run_close. cbn [snd self writer h11_state].
    split; [| split; [| reflexivity]].
    + intros [E _]. rewrite E in Eo. discriminate Eo.
    + unfold HTTP11Connection_is_closed. cbn [h11_state].
      destruct (h11.closed_is_terminal (h11_state (self c2))) as [E | E];
        cbv zeta in E; rewrite E; reflexivity.
Qed.

End DriverProperties.

(* ------------------------------------------------------------------ *)
(** * The further properties on concrete runs *)

Lemma connect_binds_negotiated_driver_witness :
  effective_ssl (P := Run.online) Run.buffered_online
    (self Run.unconnected_online) = Some tt
  /\ effective_timeout (P := Run.online) Run.timeout_given
       (self Run.unconnected_online) = Some tt
  /\ context_is (P := Run.online) tt (self Run.unconnected_online) (Some tt)
  /\ fst (HTTPConnection_connect Run.timeout_given Run.unconnected_online)
     = Ok tt
  /\ HTTPConnection_is_http2
       (self (snd (HTTPConnection_connect Run.timeout_given
                     Run.unconnected_online))) = false
  /\ h11_connection
       (self (snd (HTTPConnection_connect Run.timeout_given
                     Run.unconnected_online)))
     = Some (HTTP11Connection_init (mkReader Run.ok_hello)
               (mkWriter [] [] false) Run.pool).
Proof.
  assert (Hctx : context_is (P := Run.online) tt
                   (self Run.unconnected_online) (Some tt)).
  { right. split; [reflexivity |]. exists tt. split; reflexivity. }
  split; [reflexivity |]. split; [reflexivity |]. split; [exact Hctx |].
  destruct (connect_binds_negotiated_driver (P := Run.online)
              Run.timeout_given Run.unconnected_online tt tt (Some tt)
              (mkReader Run.ok_hello) (mkWriter [] [] false) HTTP_11
              eq_refl eq_refl Hctx eq_refl) as (E & Eh).
  split; [rewrite E; reflexivity |].
  split; [apply Eh; reflexivity |].
  rewrite E. reflexivity.
Defined.

Lemma connect_failure_changes_nothing_witness :
  effective_timeout (P := Run.online) Run.timeout_None
    (self Run.unconnected_online) = None
  /\ both_None (self Run.unconnected_online) = true
  /\ HTTPConnection_connect Run.timeout_None Run.unconnected_online
     = (Raise AssertionError, Run.unconnected_online)
  /\ HTTPConnection_send (P := Run.online) 8 Run.GET Run.timeout_None
       Run.unconnected_online
     = (Raise AssertionError, Run.unconnected_online).
Proof.
  assert (Hn : effective_timeout (P := Run.online) Run.timeout_None
                 (self Run.unconnected_online) = None) by reflexivity.
  split; [exact Hn |]. split; [reflexivity |].
  destruct (connect_failure_changes_nothing (P := Run.online) 8 Run.GET
              Run.timeout_None Run.unconnected_online AssertionError
              (or_introl (conj (or_intror Hn) eq_refl)))
    as (E1 & E2).
  split; [exact E1 | apply E2; reflexivity].
Defined.

Lemma HTTPConnection_send_delegates_witness :
  h2_connection (self Run.bound_h11) = None
  /\ h11_connection (self Run.bound_h11) = Some (self Run.exchange_done)
  /\ fst (HTTPConnection_send 8 Run.GET Run.buffered Run.bound_h11)
     = Raise (H11ProtocolError h11.LocalProtocolError)
  /\ log (snd (HTTPConnection_send 8 Run.GET Run.buffered Run.bound_h11))
     = [h11_send (h11.Request (encode "GET") "/" [])].
Proof.
  assert (E2 : h2_connection (self Run.bound_h11) = None) by reflexivity.
  assert (E1 : h11_connection (self Run.bound_h11)
               = Some (self Run.exchange_done)) by reflexivity.
  split; [exact E2 |]. split; [exact E1 |].
  rewrite (proj2 (HTTPConnection_send_delegates 8 Run.GET Run.buffered
                    Run.bound_h11) (self Run.exchange_done) E2 E1).
  split; vm_compute; reflexivity.
Defined.

Lemma binding_is_permanent_witness :
  both_None (self Run.bound_h11) = false
  /\ both_None
       (self (snd (HTTPConnection_send 8 Run.GET Run.buffered Run.bound_h11)))
     = false
  /\ HTTPConnection_is_http2 (self (snd (HTTPConnection_close Run.bound_h11)))
     = false.
Proof.
  assert (Eb : both_None (self Run.bound_h11) = false) by reflexivity.
  split; [exact Eb |].
  destruct (binding_is_permanent 8 Run.GET Run.buffered Run.bound_h11 Eb)
    as ((S1 & _) & (_ & C2)).
  split; [exact S1 | exact C2].
Defined.

Lemma send_connects_lazily_witness :
  both_None (self Run.unconnected_online) = true
  /\ effective_ssl (P := Run.online) Run.buffered_online
       (self Run.unconnected_online) = Some tt
  /\ effective_timeout (P := Run.online) Run.buffered_online
       (self Run.unconnected_online) = Some tt
  /\ context_is (P := Run.online) tt (self Run.unconnected_online) (Some tt)
  /\ match fst (HTTPConnection_send (P := Run.online) 8 Run.GET
                  Run.buffered_online Run.unconnected_online) with
     | Ok (inr response) => content response = Some (encode "hello")
     | _ => False
     end.
Proof.
  assert (Hctx : context_is (P := Run.online) tt
                   (self Run.unconnected_online) (Some tt)).
  { right. split; [reflexivity |]. exists tt. split; reflexivity. }
  split; [reflexivity |]. split; [reflexivity |]. split; [reflexivity |].
  split; [exact Hctx |].
  rewrite (send_connects_lazily (P := Run.online) 8 Run.GET
             Run.buffered_online Run.unconnected_online tt tt (Some tt)
             (mkReader Run.ok_hello) (mkWriter [] [] false)
             eq_refl eq_refl eq_refl Hctx eq_refl).
  vm_compute. reflexivity.
Defined.

Lemma closed_facade_is_closed_witness :
  h2_connection (self Run.bound_h11) = None
  /\ h11_connection (self Run.bound_h11) = Some (self Run.exchange_done)
  /\ HTTPConnection_is_closed (self Run.bound_h11) = Ok false
  /\ HTTPConnection_is_closed (self (snd (HTTPConnection_close Run.bound_h11)))
     = Ok true.
Proof.
  assert (E2 : h2_connection (self Run.bound_h11) = None) by reflexivity.
  assert (E1 : h11_connection (self Run.bound_h11)
               = Some (self Run.exchange_done)) by reflexivity.
  split; [exact E2 |]. split; [exact E1 |]. split; [reflexivity |].
  apply (closed_facade_is_closed Run.bound_h11 (self Run.exchange_done) E2 E1).
Defined.

Lemma failed_request_is_abandoned_witness :
  send_request Run.GET None Run.flaky
  = (Raise WriteTimeout, snd (send_request Run.GET None Run.flaky))
  /\ fst (send 8 Run.GET Run.buffered Run.flaky) = Raise WriteTimeout
  /\ reader (self (snd (send 8 Run.GET Run.buffered Run.flaky)))
     = mkReader Run.ok_hello
  /\ filter is_release (log (snd (send 8 Run.GET Run.buffered Run.flaky))) = [].
Proof.
  assert (E : send_request Run.GET None Run.flaky
              = (Raise WriteTimeout, snd (send_request Run.GET None Run.flaky)))
    by (vm_compute; reflexivity).
  split; [exact E |].
  destruct (failed_request_is_abandoned 8 Run.GET Run.buffered Run.flaky
              _ WriteTimeout E) as (Es & Er & _).
  rewrite Es. split; [reflexivity |]. split; [exact Er |].
  vm_compute. reflexivity.
Defined.

Lemma closed_driver_refuses_send_witness :
  HTTP11Connection_is_closed (self (snd (close Run.exchange_done))) = true
  /\ fst (send 8 Run.GET Run.buffered (snd (close Run.exchange_done)))
     = Raise (H11ProtocolError h11.LocalProtocolError)
  /\ written (writer (self (snd (send 8 Run.GET Run.buffered
                                 (snd (close Run.exchange_done)))))) = [].
Proof.
  assert (Ec : HTTP11Connection_is_closed
                 (self (snd (close Run.exchange_done))) = true)
    by apply (proj1 (closed_driver_refuses_send 8 Run.GET Run.buffered
                       Run.exchange_done)).
  split; [exact Ec |].
  destruct (proj2 (closed_driver_refuses_send 8 Run.GET Run.buffered
                     (snd (close Run.exchange_done))) Ec) as (Ef & _ & Ew).
  split; [exact Ef |]. rewrite Ew. reflexivity.
Defined.

Lemma send_releases_at_most_once_witness :
  exists new,
    log (snd (send 8 Run.GET Run.streaming (Run.fresh Run.ok_hello Run.pool)))
    = log (Run.fresh Run.ok_hello Run.pool) ++ new
    /\ (filter is_release new = []
        \/ opt_stream Run.streaming = false
           /\ filter is_release new
              = hook_calls (Run.fresh Run.ok_hello Run.pool)).
Proof.
  exact (send_releases_at_most_once 8 Run.GET Run.streaming
           (Run.fresh Run.ok_hello Run.pool)).
Defined.

Lemma completed_exchange_reuses_or_closes_witness :
  opt_stream Run.buffered = false
  /\ final_response_arrived Run.GET Run.buffered
       (Run.fresh Run.ok_hello Run.pool) 200 [] (encode "OK")
       (Run.head_received Run.ok_hello)
  /\ drain 8 (_body_iter None) [] (Run.head_received Run.ok_hello)
     = (Ok (encode "hello"), Run.body_pulled Run.ok_hello)
  /\ exists response c3,
       send 8 Run.GET Run.buffered (Run.fresh Run.ok_hello Run.pool)
       = (Ok response, c3)
       /\ content response = Some (encode "hello")
       /\ HTTP11Connection_is_closed (self c3) = false
       /\ writer_closed (writer (self c3)) = false.
Proof.
  assert (Hh : final_response_arrived Run.GET Run.buffered
                 (Run.fresh Run.ok_hello Run.pool) 200 [] (encode "OK")
                 (Run.head_received Run.ok_hello))
    by (vm_compute; reflexivity).
  assert (D : drain 8 (_body_iter None) [] (Run.head_received Run.ok_hello)
              = (Ok (encode "hello"), Run.body_pulled Run.ok_hello))
    by (vm_compute; reflexivity).
  split; [reflexivity |]. split; [exact Hh |]. split; [exact D |].
  destruct (completed_exchange_reuses_or_closes 8 Run.GET Run.buffered
              (Run.fresh Run.ok_hello Run.pool)
              (Run.head_received Run.ok_hello)
              (Run.body_pulled Run.ok_hello)
              200 [] (encode "OK") (encode "hello") eq_refl Hh D)
    as (response & c3 & Es & Ec & _ & Hcase).
  exists response, c3. split; [exact Es |]. split; [exact Ec |].
  destruct Hcase as [(_ & _ & _ & _ & Hn & Hw) | (Hnot & _)].
  - split; [exact Hn | exact Hw].
  - exfalso. apply Hnot. split; vm_compute; reflexivity.
Defined.
